(** * gonb: the special-command layer ([specialcmd/specialcmd.go])

    A shallow embedding of [splitCmd], [joinLine], [execInternal],
    [execShell] and [Parse], with the properties of the cell line
    classifier and of the directive lexer stated over it.

    Go strings are byte strings: they are modelled by [string] (a list of
    8-bit [ascii]).  [int] indices are modelled by [Z]; [Set[int]] (a Go
    map used as a set, mutated in place) by stdpp's [gset Z], threaded
    through the calls that mutate it.  A run-time panic (index out of
    range, failed type assertion) is an explicit outcome. *)

From Stdlib Require Import ZArith Ascii String List Bool Lia.
From stdpp Require Import base decidable option list gmap sets strings.

Local Open Scope string_scope.
Local Open Scope Z_scope.

(** ** Bytes and strings *)

Module Bytes.

Definition space : ascii := " "%char.
Definition tab : ascii := ascii_of_nat 9.
Definition newline : ascii := ascii_of_nat 10.
Definition dquote : ascii := ascii_of_nat 34.
Definition backslash : ascii := ascii_of_nat 92.
Definition percent : ascii := "%"%char.
Definition bang : ascii := "!"%char.
Definition star : ascii := "*"%char.

(** One-byte strings, for building literals that hold a quote, a tab
    or a newline. *)
Definition str (c : ascii) : string := String c EmptyString.

(** [len(s)] *)
Definition len (s : string) : Z := Z.of_nat (String.length s).

(** [s[len(s)-1]]: [None] stands for the index-out-of-range panic on
    the empty string. *)
Fixpoint last_byte (s : string) : option ascii :=
  match s with
  | EmptyString => None
  | String c EmptyString => Some c
  | String _ s' => last_byte s'
  end.

(** [s[:len(s)-1]] (only used where [s] is not empty). *)
Fixpoint drop_last (s : string) : string :=
  match s with
  | EmptyString => EmptyString
  | String _ EmptyString => EmptyString
  | String c s' => String c (drop_last s')
  end.

(** The UTF-8 encoding of the code point of a byte value, which is
    what the verb [%c] of [fmt.Sprintf] writes for a [byte] argument:
    one byte below 128, two bytes from 128 on. *)
Definition utf8_of_byte (c : ascii) : string :=
  let n := N_of_ascii c in
  if (n <? 128)%N then str c
  else String (ascii_of_N (192 + n / 64)) (str (ascii_of_N (128 + n mod 64))).

End Bytes.
Import Bytes.

(** ** The directive lexer *)

(** [fmt.Sprintf("%s%c", part, c)] with [c] a byte. *)
Definition Sprintf_s_c (part : string) (c : ascii) : string :=
  part +:+ utf8_of_byte c.

(** [isSpace := c == ' ' || c == '\t' || c == '\n'] *)
Definition isSpace (c : ascii) : bool :=
  Ascii.eqb c space || Ascii.eqb c tab || Ascii.eqb c newline.

(** [parts = append(parts, part)] guarded by [partStarted]; it occurs
    inside the loop (at a separator) and after it. *)
Definition flush (parts : list string) (part : string) (partStarted : bool)
  : list string :=
  if partStarted then parts ++ [part] else parts.

(** The body of the [for pos] loop of [splitCmd], by recursion on the
    bytes of [cmd] from [pos] on.  The escape case reads two bytes
    ([pos++]); [break] leaves the loop for the final [flush]. *)
Fixpoint splitCmd_loop (cmd : string) (parts : list string) (part : string)
    (partStarted inQuotes : bool) {struct cmd} : list string :=
  match cmd with
  | EmptyString => flush parts part partStarted
  | String c cmd' =>
      if negb inQuotes && isSpace c then
        splitCmd_loop cmd' (flush parts part partStarted) "" false inQuotes
      else if Ascii.eqb c dquote then
        if inQuotes then splitCmd_loop cmd' parts part partStarted false
        else splitCmd_loop cmd' parts part true true
      else if Ascii.eqb c backslash && inQuotes then
        match cmd' with
        | EmptyString => flush parts part partStarted
        | String c2 cmd'' =>
            let c2' :=
              if Ascii.eqb c2 "n"%char then newline
              else if Ascii.eqb c2 "t"%char then tab
              else c2 in
            splitCmd_loop cmd'' parts (Sprintf_s_c part c2') true inQuotes
        end
      else splitCmd_loop cmd' parts (Sprintf_s_c part c) true inQuotes
  end.

Definition splitCmd (cmd : string) : list string :=
  splitCmd_loop cmd [] "" false false.

(** ** Joining continuation lines *)

(** Outcome of a computation that may panic. *)
Inductive result (A : Type) : Type :=
| Ok (a : A)
| Panic.
Arguments Ok {A} a.
Arguments Panic {A}.

(** The [for ; fromLine < len(lines); fromLine++] loop of [joinLine];
    [rest] is [lines[fromLine:]]. *)
Fixpoint joinLine_loop (rest : list string) (fromLine : Z) (cmdStr : string)
    (usedLines : gset Z) : result (string * gset Z) :=
  match rest with
  | [] => Ok (cmdStr, usedLines)
  | line :: rest' =>
      let cmdStr := cmdStr +:+ line in
      let usedLines := {[fromLine]} ∪ usedLines in
      match last_byte cmdStr with
      | None => Panic
      | Some c =>
          if Ascii.eqb c backslash
          then joinLine_loop rest' (fromLine + 1)
                 (drop_last cmdStr +:+ " ") usedLines
          else Ok (cmdStr, usedLines)
      end
  end.

(** [joinLine(lines, fromLine, usedLines)]: the joined command and the
    updated set.  A negative [fromLine] passes the loop test and panics
    at [lines[fromLine]]. *)
Definition joinLine (lines : list string) (fromLine : Z) (usedLines : gset Z)
  : result (string * gset Z) :=
  if fromLine <? 0 then Panic
  else joinLine_loop (drop (Z.to_nat fromLine) lines) fromLine "" usedLines.

(** The indices [fromLine], ..., [fromLine + n - 1]. *)
Definition joined (fromLine : Z) (n : nat) : gset Z :=
  list_to_set (seqZ fromLine (Z.of_nat n)).

(** The indices that the call [joinLine(lines, fromLine, _)] inserts:
    what it leaves in a set that was empty. *)
Definition joinLine_inserts (lines : list string) (fromLine : Z) : gset Z :=
  match joinLine lines fromLine ∅ with
  | Ok (_, u) => u
  | Panic => ∅
  end.

(** ** Errors, messages and the kernel's state *)

(** Arguments of a format string that builds an error. *)
Inductive fmtArg : Type :=
| ArgStr (s : string)
| ArgInt (n : Z).

(** Go [error] values.  [errors.Errorf] and [errors.Wrapf] keep their
    format string and arguments; [Foreign] is an error made by another
    package ([os], [kernel], [goexec]). *)
Inductive error : Type :=
| Errorf (format : string) (args : list fmtArg)
| Wrapf (cause : error) (format : string) (args : list fmtArg)
| Foreign (what : string).

(** Arguments of a [klog] call. *)
Inductive logArg : Type :=
| LogErr (e : error)
| LogStr (s : string)
| LogStrs (l : list string).

Inductive Stream : Type := StreamStdout | StreamStderr.

(** How [PipeExecToJupyter(...)] is configured before [Exec()]. *)
Inductive InputMode : Type :=
| NoInputs
| WithInputs (millis : Z)
| WithPassword (millis : Z).

Definition MillisecondsWaitForInput : Z := 200.

(** A value of the [map[string]any] of a message's content: only
    booleans are told apart, for the type assertion [.(bool)]. *)
Inductive jsonValue : Type := JBool (b : bool) | JOther.

(** [msg.ComposedMsg().Content] when it is not nil: a
    [map[string]any], or a value of another dynamic type. *)
Inductive ContentValue : Type :=
| ContentMap (m : gmap string jsonValue)
| ContentNotMap.

Record ComposedMsg : Type := { Content : option ContentValue }.

(** [kernel.Message] is an interface; [None] is the nil message that
    [execInternal] supports for testing. *)
Definition Message : Type := option ComposedMsg.

(** The fields of [goexec.State] that this package reads or writes. *)
Record State : Type := {
  Args : list string;
  AutoGet : bool;
  TempDir : string
}.

Record cellStatus : Type := {
  withInputs : bool;
  withPassword : bool
}.

(** [content] as computed at the top of [execInternal]: the type
    assertion [.(map[string]any)] panics on another dynamic type. *)
Definition message_content (msg : Message)
  : result (option (gmap string jsonValue)) :=
  match msg with
  | None => Ok None
  | Some cm =>
      match Content cm with
      | None => Ok None
      | Some (ContentMap m) => Ok (Some m)
      | Some ContentNotMap => Panic
      end
  end.

(** [content["allow_stdin"].(bool)]: reading a nil map or a missing key
    gives nil, on which the type assertion panics. *)
Definition allow_stdin (content : option (gmap string jsonValue))
  : result bool :=
  match content with
  | None => Panic
  | Some m =>
      match m !! "allow_stdin" with
      | Some (JBool b) => Ok b
      | _ => Panic
      end
  end.

(** [case "a", "b", ...:] of a [switch] on a string. *)
Definition is_one_of (s : string) (names : list string) : bool :=
  bool_decide (s ∈ names).

(** The command names of the [switch] of [execInternal]. *)
Definition dispatch_table : list string :=
  ["%"; "main"; "args"; "env"; "cd"; "autoget"; "noautoget"; "help";
   "reset"; "ls"; "list"; "rm"; "remove"; "with_inputs"; "with_password";
   "track"; "untrack"; "goworkfix"].

(** The loop [for cmdStr[0] == ' ' { cmdStr = cmdStr[1:] }] of [Parse]:
    [None] is the index-out-of-range panic of [cmdStr[0]] once [cmdStr]
    is empty. *)
Fixpoint skip_spaces (cmdStr : string) : option string :=
  match cmdStr with
  | EmptyString => None
  | String c cmdStr' =>
      if Ascii.eqb c space then skip_spaces cmdStr' else Some cmdStr
  end.

(** [n] spaces. *)
Fixpoint spaces (n : nat) : string :=
  match n with
  | O => EmptyString
  | S n' => String space (spaces n')
  end.

(** [len(line) > 1 && (line[0] == '%' || line[0] == '!')] *)
Definition is_special (line : string) : bool :=
  (1 <? len line) &&
  match line with
  | EmptyString => false
  | String c _ => Ascii.eqb c percent || Ascii.eqb c bang
  end.

(** How [Parse] returns: from inside the loop, with the error of a
    directive, or after the loop with the last value assigned to
    [err]. *)
Inductive ParseReturn : Type :=
| ReturnDirective (e : error)
| ReturnEnd (err : option error).

Definition returned_err (r : ParseReturn) : option error :=
  match r with
  | ReturnDirective e => Some e
  | ReturnEnd err => err
  end.

(** What one iteration of the loop of [Parse] does next. *)
Inductive Control : Type :=
| Next (err : option error)
| Return (e : error).

(** ** The special commands over an abstract world *)

(** [W] is everything outside this package that its calls can read or
    change: the process environment and working directory, the Jupyter
    connection, the log, the file system and the part of [goexec.State]
    not listed in [State].  The functions of other packages, and those
    of this package defined in other files, are an interface of state
    transformers on it.  They are assumed to return. *)
Class Externals (W : Type) : Type := {
  PublishWriteStream : Message → Stream → string → W → W * option error;
  PublishDisplayDataWithMarkdown : Message → string → W → W * option error;
  PipeExecToJupyter :
    Message → string → list string → string → InputMode → W → W * option error;
  os_Setenv : string → string → W → W * option error;
  os_Chdir : string → W → W * option error;
  os_Getwd : W → string;
  ReplaceTildeInDir : string → W → string;
  klog_Errorf : string → list logArg → W → W;
  klog_Infof : Z → string → list logArg → W → W;
  strconv_Quote : string → string;
  HelpMessage : string;
  GONB_DIR_ENV : string;
  GoModInit : State → W → State * W * option error;
  AutoTrack : State → W → State * W * option error;
  GoWorkFix : Message → State → W → State * W * option error;
  resetDefinitions : Message → State → W → State * W;
  listDefinitions : Message → State → W → State * W;
  removeDefinitions : Message → State → list string → W → State * W;
  execTrack : Message → State → list string → W → State * W;
  execUntrack : Message → State → list string → W → State * W
}.

(** What a call of [Parse] can mutate: the set behind [usedLines], the
    struct behind [goExec], its own [status], and the world. *)
Record Machine (W : Type) : Type := {
  usedLines : gset Z;
  goExec : State;
  status : cellStatus;
  world : W
}.
Arguments usedLines {W} _.
Arguments goExec {W} _.
Arguments status {W} _.
Arguments world {W} _.

Section SpecialCmd.

Context {W : Type} `{!Externals W}.

#[local] Abbreviation Machine := (Machine W).

Definition set_usedLines (u : gset Z) (m : Machine) : Machine :=
  {| usedLines := u; goExec := goExec m; status := status m; world := world m |}.
Definition set_goExec (g : State) (m : Machine) : Machine :=
  {| usedLines := usedLines m; goExec := g; status := status m; world := world m |}.
Definition set_status (s : cellStatus) (m : Machine) : Machine :=
  {| usedLines := usedLines m; goExec := goExec m; status := s; world := world m |}.
Definition set_world (w : W) (m : Machine) : Machine :=
  {| usedLines := usedLines m; goExec := goExec m; status := status m; world := w |}.

(** Statements: they change the machine and yield a value or panic. *)
Definition Exec (A : Type) : Type := Machine → Machine * result A.

Definition ret {A} (a : A) : Exec A := λ m, (m, Ok a).
Definition panic {A} : Exec A := λ m, (m, Panic).
Definition bind {A B} (c : Exec A) (k : A → Exec B) : Exec B :=
  λ m, match c m with
       | (m', Ok a) => k a m'
       | (m', Panic) => (m', Panic)
       end.

#[global] Instance Exec_ret : MRet Exec := @ret.
#[global] Instance Exec_bind : MBind Exec := λ A B k c, bind c k.

Definition of_result {A} (r : result A) : Exec A :=
  match r with Ok a => ret a | Panic => panic end.

(** A call that only touches the world. *)
Definition call {A} (f : W → W * A) : Exec A :=
  λ m, let '(w, a) := f (world m) in (set_world w m, Ok a).
(** A call with no result ([klog]). *)
Definition log (f : W → W) : Exec unit :=
  λ m, (set_world (f (world m)) m, Ok tt).
(** A read of the world. *)
Definition ask {A} (f : W → A) : Exec A := λ m, (m, Ok (f (world m))).
(** A method of [goExec], or a function that is passed [goExec]. *)
Definition method {A} (f : State → W → State * W * A) : Exec A :=
  λ m, let '(g, w, a) := f (goExec m) (world m) in
       (set_world w (set_goExec g m), Ok a).
Definition proc (f : State → W → State * W) : Exec unit :=
  λ m, let '(g, w) := f (goExec m) (world m) in
       (set_world w (set_goExec g m), Ok tt).
Definition get_status : Exec cellStatus := λ m, (m, Ok (status m)).
Definition put_status (s : cellStatus) : Exec unit :=
  λ m, (set_status s m, Ok tt).
Definition get_goExec : Exec State := λ m, (m, Ok (goExec m)).
Definition put_goExec (g : State) : Exec unit :=
  λ m, (set_goExec g m, Ok tt).

(** [if err != nil { klog.Errorf(format, ..., err) }] *)
Definition log_if_failed (err : option error) (format : string)
    (args : list logArg) : Exec unit :=
  match err with
  | None => ret tt
  | Some e => log (klog_Errorf format (args ++ [LogErr e]))
  end.

(** The text of the default branch: a percent sign and [parts[0]]
    between double quotes, then [ unknown or not implemented yet.] *)
Definition unknown_command_text (name : string) : string :=
  str dquote +:+ "%" +:+ name +:+ str dquote
    +:+ " unknown or not implemented yet.".

Definition execInternal (msg : Message) (cmdStr : string)
  : Exec (option error) :=
  content ← of_result (message_content msg);
  let parts := splitCmd cmdStr in
  match parts with
  | [] => panic
  | name :: args =>
    if is_one_of name ["%"; "main"; "args"] then
      g ← get_goExec;
      put_goExec {| Args := args; AutoGet := AutoGet g; TempDir := TempDir g |};;
      log (klog_Infof 2 "Program args to use (%%): %+q" [LogStrs parts]);;
      mret None
    else if is_one_of name ["env"] then
      match args with
      | [var; value] =>
          err ← call (os_Setenv var value);
          match err with
          | Some e =>
              mret (Some (Wrapf e "`%%env %q %q` failed" [ArgStr var; ArgStr value]))
          | None =>
              err ← call (PublishWriteStream msg StreamStdout
                      ("Set: " +:+ var +:+ "=" +:+ strconv_Quote value
                         +:+ str newline));
              log_if_failed err "Failed to output: %+v" [];;
              mret None
          end
      | _ =>
          mret (Some (Errorf
            "`%%env <VAR_NAME> <value>`: it takes 2 arguments, the variable name and it's content, but %d were given"
            [ArgInt (Z.of_nat (length parts) - 1)]))
      end
    else if is_one_of name ["cd"] then
      match args with
      | [] =>
          pwd ← ask os_Getwd;
          call (PublishWriteStream msg StreamStdout
                  ("Current directory: " +:+ strconv_Quote pwd +:+ str newline));;
          mret None
      | [dir] =>
          dir' ← ask (ReplaceTildeInDir dir);
          err ← call (os_Chdir dir');
          match err with
          | Some e => mret (Some (Wrapf e "`%%cd %q` failed" [ArgStr dir]))
          | None =>
              pwd ← ask os_Getwd;
              err ← call (PublishWriteStream msg StreamStdout
                      ("Changed directory to " +:+ strconv_Quote pwd
                         +:+ str newline));
              log_if_failed err "Failed to output: %+v" [];;
              err ← call (os_Setenv GONB_DIR_ENV pwd);
              log_if_failed err "Failed to set environment variable %q: %+v"
                [LogStr GONB_DIR_ENV];;
              mret None
          end
      | _ =>
          mret (Some (Errorf
            "`%%cd [<directory>]`: it takes none or one argument, but %d were given"
            [ArgInt (Z.of_nat (length parts) - 1)]))
      end
    else if is_one_of name ["autoget"] then
      g ← get_goExec;
      put_goExec {| Args := Args g; AutoGet := true; TempDir := TempDir g |};;
      mret None
    else if is_one_of name ["noautoget"] then
      g ← get_goExec;
      put_goExec {| Args := Args g; AutoGet := false; TempDir := TempDir g |};;
      mret None
    else if is_one_of name ["help"] then
      err ← call (PublishDisplayDataWithMarkdown msg HelpMessage);
      log_if_failed err "Failed publishing %help contents: %+v" [];;
      mret None
    else if is_one_of name ["reset"] then
      match args with
      | [] => proc (resetDefinitions msg);; method GoModInit
      | [what] =>
          if bool_decide (what = "go.mod") then method GoModInit
          else mret (Some (Errorf
                 ("%%reset only take one optional parameter "
                    +:+ str dquote +:+ "go.mod" +:+ str dquote) []))
      | _ =>
          mret (Some (Errorf
                 ("%%reset only take one optional parameter "
                    +:+ str dquote +:+ "go.mod" +:+ str dquote) []))
      end
    else if is_one_of name ["ls"; "list"] then
      proc (listDefinitions msg);; mret None
    else if is_one_of name ["rm"; "remove"] then
      proc (λ g, removeDefinitions msg g args);; mret None
    else if is_one_of name ["with_inputs"] then
      allowInput ← of_result (allow_stdin content);
      s ← get_status;
      if negb allowInput && (withInputs s || withPassword s) then
        mret (Some (Errorf
          "%%with_inputs not available in this notebook, it doesn't allow input prompting" []))
      else
        put_status {| withInputs := true; withPassword := withPassword s |};;
        mret None
    else if is_one_of name ["with_password"] then
      allowInput ← of_result (allow_stdin content);
      s ← get_status;
      if negb allowInput && (withInputs s || withPassword s) then
        mret (Some (Errorf
          "%%with_password not available in this notebook, it doesn't allow input prompting" []))
      else
        put_status {| withInputs := withInputs s; withPassword := true |};;
        mret None
    else if is_one_of name ["track"] then
      proc (λ g, execTrack msg g args);; mret None
    else if is_one_of name ["untrack"] then
      proc (λ g, execUntrack msg g args);; mret None
    else if is_one_of name ["goworkfix"] then
      method (GoWorkFix msg)
    else
      err ← call (PublishWriteStream msg StreamStderr (unknown_command_text name));
      log_if_failed err
        ("Error while reporting back on unimplemented message command "
           +:+ str dquote +:+ "%%%s" +:+ str dquote +:+ " kernel: %+v")
        [LogStr name];;
      mret None
  end.

Definition execShell (msg : Message) (cmdStr : string)
  : Exec (option error) :=
  match cmdStr with
  | EmptyString => panic
  | String c cmdStr' =>
      g ← get_goExec;
      let '(cmdStr, execDir) :=
        if Ascii.eqb c star then (cmdStr', TempDir g) else (cmdStr, "") in
      s ← get_status;
      if withInputs s then
        put_status {| withInputs := false; withPassword := false |};;
        call (PipeExecToJupyter msg "/bin/bash" ["-c"; cmdStr] execDir
                (WithInputs MillisecondsWaitForInput))
      else if withPassword s then
        put_status {| withInputs := false; withPassword := false |};;
        call (PipeExecToJupyter msg "/bin/bash" ["-c"; cmdStr] execDir
                (WithPassword MillisecondsWaitForInput))
      else
        call (PipeExecToJupyter msg "/bin/bash" ["-c"; cmdStr] execDir NoInputs)
  end.

(** [cmdStr = joinLine(codeLines, lineNum, usedLines)].  The call is
    made on a line that is not empty, where [joinLine] does not
    panic. *)
Definition call_joinLine (codeLines : list string) (lineNum : Z)
  : Exec string :=
  λ m, match joinLine codeLines lineNum (usedLines m) with
       | Ok (cmdStr, u) => (set_usedLines u m, Ok cmdStr)
       | Panic => (m, Panic)
       end.

(** The body of the loop of [Parse] at [lineNum], where [line] is
    [codeLines[lineNum]] and [err] the current value of the named
    result. *)
Definition Parse_line (msg : Message) (execute : bool)
    (codeLines : list string) (lineNum : Z) (line : string)
    (err : option error) : Exec Control :=
  λ m,
  if bool_decide (lineNum ∈ usedLines m) then (m, Ok (Next err))
  else if is_special line then
    (cmdStr ← call_joinLine codeLines lineNum;
     match cmdStr with
     | EmptyString => panic
     | String cmdType cmdStr =>
         match skip_spaces cmdStr with
         | None => panic
         | Some cmdStr =>
             if len cmdStr =? 0 then mret (Next err)
             else if execute then
               if Ascii.eqb cmdType percent then
                 err ← execInternal msg cmdStr;
                 match err with
                 | Some e => mret (Return e)
                 | None => mret (Next None)
                 end
               else if Ascii.eqb cmdType bang then
                 err ← execShell msg cmdStr;
                 match err with
                 | Some e => mret (Return e)
                 | None =>
                     err ← method AutoTrack;
                     log_if_failed err "goExec.AutoTrack failed: %+v" [];;
                     mret (Next err)
                 end
               else mret (Next err)
             else mret (Next err)
         end
     end) m
  else (m, Ok (Next err)).

(** The loop of [Parse] from [lineNum] on; [rest] is
    [codeLines[lineNum:]]. *)
Fixpoint Parse_loop (msg : Message) (execute : bool)
    (codeLines : list string) (rest : list string) (lineNum : Z)
    (err : option error) : Exec ParseReturn :=
  match rest with
  | [] => mret (ReturnEnd err)
  | line :: rest' =>
      ctl ← Parse_line msg execute codeLines lineNum line err;
      match ctl with
      | Return e => mret (ReturnDirective e)
      | Next err => Parse_loop msg execute codeLines rest' (lineNum + 1) err
      end
  end.

(** [Parse(msg, goExec, execute, codeLines, usedLines)], run on the
    machine that holds [goExec], [usedLines] and the world. *)
Definition Parse (msg : Message) (execute : bool) (codeLines : list string)
  : Exec ParseReturn :=
  put_status {| withInputs := false; withPassword := false |};;
  Parse_loop msg execute codeLines codeLines 0 None.

(** What one iteration of the loop of [Parse] leaves in [usedLines],
    whatever [execute] is: only the call of [joinLine] writes to
    it. *)
Definition consume (codeLines : list string) (lineNum : Z) (line : string)
    (used : gset Z) : gset Z :=
  if bool_decide (lineNum ∈ used) then used
  else if is_special line then
    match joinLine codeLines lineNum used with
    | Ok (_, u) => u
    | Panic => used
    end
  else used.

(** A statement that leaves [usedLines] as it is. *)
Definition keeps_usedLines {A} (c : Exec A) : Prop :=
  ∀ m, usedLines (c m).1 = usedLines m.

(** The machines and the values of [err] with which a call of [Parse]
    on the machine [m0] reaches the test of its loop, at
    [lineNum = n]. *)
Inductive at_loop_head (msg : Message) (execute : bool)
    (codeLines : list string) (m0 : Machine)
  : nat → option error → Machine → Prop :=
| head_first :
    at_loop_head msg execute codeLines m0 0 None
      (set_status {| withInputs := false; withPassword := false |} m0)
| head_next n err m line err' m' :
    at_loop_head msg execute codeLines m0 n err m →
    codeLines !! n = Some line →
    Parse_line msg execute codeLines (Z.of_nat n) line err m
      = (m', Ok (Next err')) →
    at_loop_head msg execute codeLines m0 (S n) err' m'.


End SpecialCmd.

Arguments Exec W A : clear implicits.

(** ** A world that records the calls made to it *)

(** An instance of [Externals] for running the model on concrete cells:
    the world is the trace of the external calls, newest first, and the
    names of the fallible calls that are to fail. *)
Module Sim.

Inductive Event : Type :=
| EvPublish (stream : Stream) (text : string)
| EvMarkdown (text : string)
| EvExec (program : string) (args : list string) (dir : string)
    (mode : InputMode)
| EvSetenv (var value : string)
| EvChdir (dir : string)
| EvLogError (format : string) (args : list logArg)
| EvLogInfo (level : Z) (format : string) (args : list logArg)
| EvGoExec (method : string) (args : list string).

Record World : Type := {
  trace : list Event;
  cwd : string;
  failing : list string
}.

Definition record (ev : Event) (w : World) : World :=
  {| trace := ev :: trace w; cwd := cwd w; failing := failing w |}.

Definition outcome (name : string) (w : World) : option error :=
  if bool_decide (name ∈ failing w) then Some (Foreign name) else None.

Definition fallible (name : string) (ev : Event) (w : World)
  : World * option error :=
  (record ev w, outcome name w).

Definition chdir (dir : string) (w : World) : World * option error :=
  match outcome "os.Chdir" w with
  | Some e => (record (EvChdir dir) w, Some e)
  | None =>
      ({| trace := EvChdir dir :: trace w; cwd := dir; failing := failing w |},
       None)
  end.

#[global] Instance externals : Externals World := {|
  PublishWriteStream _ stream text :=
    fallible "kernel.PublishWriteStream" (EvPublish stream text);
  PublishDisplayDataWithMarkdown _ text :=
    fallible "kernel.PublishDisplayDataWithMarkdown" (EvMarkdown text);
  PipeExecToJupyter _ program args dir mode :=
    fallible "kernel.PipeExecToJupyter" (EvExec program args dir mode);
  os_Setenv var value := fallible "os.Setenv" (EvSetenv var value);
  os_Chdir := chdir;
  os_Getwd := cwd;
  ReplaceTildeInDir dir _ := dir;
  klog_Errorf format args := record (EvLogError format args);
  klog_Infof level format args := record (EvLogInfo level format args);
  strconv_Quote s := str dquote +:+ s +:+ str dquote;
  HelpMessage := "help";
  GONB_DIR_ENV := "GONB_DIR";
  GoModInit g w :=
    (g, record (EvGoExec "GoModInit" []) w, outcome "goexec.GoModInit" w);
  AutoTrack g w :=
    (g, record (EvGoExec "AutoTrack" []) w, outcome "goexec.AutoTrack" w);
  GoWorkFix _ g w :=
    (g, record (EvGoExec "GoWorkFix" []) w, outcome "goexec.GoWorkFix" w);
  resetDefinitions _ g w := (g, record (EvGoExec "resetDefinitions" []) w);
  listDefinitions _ g w := (g, record (EvGoExec "listDefinitions" []) w);
  removeDefinitions _ g args w :=
    (g, record (EvGoExec "removeDefinitions" args) w);
  execTrack _ g args w := (g, record (EvGoExec "execTrack" args) w);
  execUntrack _ g args w := (g, record (EvGoExec "execUntrack" args) w)
|}.

(** A freshly made [goexec.State], an empty [usedLines] and a world in
    which the calls named in [failing] fail. *)
Definition initial (failing : list string) : Machine World :=
  {| usedLines := ∅;
     goExec := {| Args := []; AutoGet := true; TempDir := "/tmp/gonb" |};
     status := {| withInputs := false; withPassword := false |};
     world := {| trace := []; cwd := "/home"; failing := failing |} |}.

End Sim.

(** ** Inputs of the tests *)

Module Fixtures.

(** The two arguments of [TestSplitCmd], as typed, and their values. *)
Definition msg_arg : string :=
  "--msg=" +:+ str dquote +:+ "hello world" +:+ str dquote.
Definition msg2_arg : string :=
  "--msg2=" +:+ str dquote +:+ "it replied " +:+ str backslash +:+ str dquote
    +:+ str backslash +:+ "nhello" +:+ str backslash +:+ "t"
    +:+ str backslash +:+ str dquote +:+ str dquote.
Definition msg_value : string := "--msg=hello world".
Definition msg2_value : string :=
  "--msg2=it replied " +:+ str dquote +:+ str newline +:+ "hello"
    +:+ str tab +:+ str dquote.

(** The argument of [splitCmd] in [TestSplitCmd]. *)
Definition splitCmd_input : string :=
  msg_arg +:+ " " +:+ str tab +:+ str newline +:+ " " +:+ msg2_arg
    +:+ " " +:+ str dquote.

(** The same with the separators as the claim lists them: space, tab,
    newline; then two spaces. *)
Definition splitCmd_input_spec : string :=
  msg_arg +:+ " " +:+ str tab +:+ str newline +:+ msg2_arg
    +:+ "  " +:+ str dquote.

(** [strings.Split("a\nb c\\\nd\\\ne\nf", "\n")] of [TestJoinLine]. *)
Definition joinLine_lines : list string :=
  ["a"; "b c" +:+ str backslash; "d" +:+ str backslash; "e"; "f"].

(** A cell of two directives, the first a [%env] with one argument. *)
Definition env_cell : list string := ["%env A"; "%noautoget"].

(** A directive, a line of Go, and a shell command continued on a
    second line. *)
Definition mixed_cell : list string :=
  ["%noautoget"; "x := 1"; "!ls " +:+ str backslash; "-l"].


End Fixtures.

(** A string of separators only. *)
Fixpoint all_spaces (s : string) : bool :=
  match s with
  | EmptyString => true
  | String c s' => isSpace c && all_spaces s'
  end.

(** ** Notions used to state further properties *)

(** Every byte of [s] satisfies [p]. *)
Fixpoint all_bytes (p : ascii → bool) (s : string) : bool :=
  match s with
  | EmptyString => true
  | String c s' => p c && all_bytes p s'
  end.

(** A byte below 128. *)
Definition is_ascii (c : ascii) : bool := (N_of_ascii c <? 128)%N.

(** A byte that is neither a separator nor a double quote. *)
Definition is_word_byte (c : ascii) : bool :=
  negb (isSpace c) && negb (Ascii.eqb c dquote).

(** What [splitCmd] accumulates for a run of ordinary bytes: each byte
    goes through [%c]. *)
Fixpoint utf8_of_bytes (s : string) : string :=
  match s with
  | EmptyString => EmptyString
  | String c s' => utf8_of_byte c +:+ utf8_of_bytes s'
  end.

(** How a user writes an arbitrary text as one quoted argument: a
    backslash before every double quote and every backslash, the whole
    between double quotes. *)
Fixpoint escape (s : string) : string :=
  match s with
  | EmptyString => EmptyString
  | String c s' =>
      if Ascii.eqb c dquote || Ascii.eqb c backslash
      then String backslash (String c (escape s'))
      else String c (escape s')
  end.

Definition quote (s : string) : string :=
  str dquote +:+ escape s +:+ str dquote.

(** A line whose sigil is directly followed by the command: its second
    byte is neither a space nor a backslash. *)
Definition starts_command (line : string) : bool :=
  match line with
  | String _ (String c _) => negb (Ascii.eqb c space) && negb (Ascii.eqb c backslash)
  | _ => false
  end.

(** A line that [Parse] may consume: a directive or shell line, or a
    line that follows one ending with a backslash. *)
Definition consumable (codeLines : list string) (i : Z) : Prop :=
  0 ≤ i ∧ ∃ line, codeLines !! Z.to_nat i = Some line
    ∧ (is_special line = true
       ∨ (0 < i ∧ ∃ prev, codeLines !! Z.to_nat (i - 1) = Some prev
                     ∧ last_byte prev = Some backslash)).

(** The status with both flags cleared. *)
Definition no_inputs : cellStatus :=
  {| withInputs := false; withPassword := false |}.

(** The directives of [execInternal] that have no [return] of an error
    and no indexing or type assertion in their branch. *)
Definition infallible_directives : list string :=
  ["%"; "main"; "args"; "autoget"; "noautoget"; "help"; "ls"; "list";
   "rm"; "remove"; "track"; "untrack"].

(** * Properties *)

(** ** The directive lexer *)

(** A run of separators outside quotes closes the part in progress and
    starts no new one. *)
Lemma splitCmd_loop_spaces ws rest parts part partStarted :
  all_spaces ws = true → ws ≠ "" →
  splitCmd_loop (ws +:+ rest) parts part partStarted false
  = splitCmd_loop rest (flush parts part partStarted) "" false false.
Proof.
  revert parts part partStarted.
  induction ws as [|c ws IH]; intros parts part partStarted Hall Hne; [done|].
  cbn [all_spaces] in Hall. apply andb_prop in Hall as [Hc Hws].
  change (String c ws +:+ rest) with (String c (ws +:+ rest)).
  cbn [splitCmd_loop negb andb]. rewrite Hc.
  destruct ws as [|c' ws'] eqn:E; [reflexivity|].
  rewrite <- E in *. rewrite IH; [reflexivity | done | by subst].
Qed.

(** The example of the doc comment of [splitCmd]: [%args --text] and a
    quoted [hello world] give three parts. *)
Example splitCmd_doc_example :
  splitCmd ("%args --text " +:+ str dquote +:+ "hello world" +:+ str dquote)
  = ["%args"; "--text"; "hello world"].
Proof. reflexivity. Qed.

(** Outside quotes a backslash is an ordinary byte; inside quotes a
    backslash that ends the input is dropped with no error. *)
Example splitCmd_backslashes :
  splitCmd ("a" +:+ str backslash +:+ "n b") = ["a" +:+ str backslash +:+ "n"; "b"]
  ∧ splitCmd (str dquote +:+ "a" +:+ str backslash) = ["a"].
Proof. split; reflexivity. Qed.

(** The first argument of the test, read from the start of a part. *)
Lemma splitCmd_loop_msg rest parts :
  splitCmd_loop (Fixtures.msg_arg +:+ rest) parts "" false false
  = splitCmd_loop rest parts Fixtures.msg_value true false.
Proof. reflexivity. Qed.

(** The second argument, with its escapes inside the quotes. *)
Lemma splitCmd_loop_msg2 rest parts :
  splitCmd_loop (Fixtures.msg2_arg +:+ rest) parts "" false false
  = splitCmd_loop rest parts Fixtures.msg2_value true false.
Proof. reflexivity. Qed.

(** C1. [splitCmd] on the first argument of the test
    ([Fixtures.msg_arg]: --msg= and a quoted hello world), separators,
    the second argument ([Fixtures.msg2_arg]: --msg2= and a quoted text
    with escaped quotes, an escaped n and an escaped t), separators and
    a lone double quote returns exactly three parts: [--msg=hello
    world]; then [--msg2=it replied ] followed by a double quote, a
    newline, [hello], a tab and a double quote; then the empty string.
    The separators are any non-empty runs of spaces, tabs and newlines,
    which covers the input of [TestSplitCmd] (space, tab, newline,
    space; then one space) and the one with two spaces before the lone
    quote. *)
Theorem splitCmd_quotes_and_escapes ws1 ws2 :
  all_spaces ws1 = true → ws1 ≠ "" →
  all_spaces ws2 = true → ws2 ≠ "" →
  splitCmd (Fixtures.msg_arg +:+ ws1 +:+ Fixtures.msg2_arg +:+ ws2 +:+ str dquote)
  = [Fixtures.msg_value; Fixtures.msg2_value; ""].
Proof.
  intros H1 N1 H2 N2. unfold splitCmd.
  rewrite splitCmd_loop_msg, splitCmd_loop_spaces by done.
  rewrite splitCmd_loop_msg2, splitCmd_loop_spaces by done.
  reflexivity.
Qed.

(** The theorem at the input of [TestSplitCmd], and at the input as the
    spec writes it. *)
Lemma splitCmd_quotes_and_escapes_witness :
  splitCmd Fixtures.splitCmd_input
    = [Fixtures.msg_value; Fixtures.msg2_value; ""]
  ∧ splitCmd Fixtures.splitCmd_input_spec
    = [Fixtures.msg_value; Fixtures.msg2_value; ""].
Proof.
  split.
  - apply (splitCmd_quotes_and_escapes
             (" " +:+ str tab +:+ str newline +:+ " ") " ").
    + reflexivity.
    + discriminate.
    + reflexivity.
    + discriminate.
  - apply (splitCmd_quotes_and_escapes
             (" " +:+ str tab +:+ str newline) "  ").
    + reflexivity.
    + discriminate.
    + reflexivity.
    + discriminate.
Defined.

(** ** Joining continuation lines *)

Lemma last_byte_None s : last_byte s = None ↔ s = "".
Proof.
  split; [|by intros ->].
  induction s as [|c [|c' s'] IH]; [done|done|].
  intros H. discriminate (IH H).
Qed.

Lemma last_byte_is_Some s : s ≠ "" → ∃ c, last_byte s = Some c.
Proof.
  intros Hs. destruct (last_byte s) as [c|] eqn:E; [eauto|].
  by apply last_byte_None in E.
Qed.

Lemma append_nonempty_l s t : s ≠ "" → s +:+ t ≠ "".
Proof. by destruct s. Qed.

Lemma append_nonempty_r s t : t ≠ "" → s +:+ t ≠ "".
Proof. destruct s; [done|]. intros _. discriminate. Qed.

Lemma elem_of_joined i fromLine n :
  i ∈ joined fromLine n ↔ fromLine ≤ i < fromLine + Z.of_nat n.
Proof. unfold joined. by rewrite elem_of_list_to_set, elem_of_seqZ. Qed.

Lemma joined_0 fromLine (used : gset Z) : joined fromLine 0 ∪ used = used.
Proof.
  apply set_eq. intros x. rewrite elem_of_union, elem_of_joined.
  split; [intros [H|H]; [lia|done] | by right].
Qed.

Lemma joined_1 fromLine (used : gset Z) :
  joined fromLine 1 ∪ used = {[fromLine]} ∪ used.
Proof.
  apply set_eq. intros x.
  rewrite !elem_of_union, elem_of_joined, elem_of_singleton.
  split; (intros [H|H]; [left; lia | by right]).
Qed.

Lemma joined_step fromLine n (used : gset Z) :
  joined (fromLine + 1) n ∪ ({[fromLine]} ∪ used) = joined fromLine (S n) ∪ used.
Proof.
  apply set_eq. intros x.
  rewrite !elem_of_union, !elem_of_joined, elem_of_singleton.
  split.
  - intros [H|[H|H]]; [left; lia|left; lia|by right].
  - intros [H|H]; [|by right; right].
    destruct (decide (x = fromLine)); [right; by left|left; lia].
Qed.

(** Once the accumulated command is not empty, the loop of [joinLine]
    runs to its end: the last byte it inspects is always there. *)
Lemma joinLine_loop_nonempty rest : ∀ fromLine cmdStr used,
  cmdStr ≠ "" →
  ∃ cmdStr' n,
    joinLine_loop rest fromLine cmdStr used
      = Ok (cmdStr', joined fromLine n ∪ used)
    ∧ cmdStr' ≠ "" ∧ (n ≤ length rest)%nat.
Proof.
  induction rest as [|line rest IH]; intros fromLine cmdStr used Hne.
  - exists cmdStr, 0%nat. cbn. by rewrite joined_0.
  - cbn [joinLine_loop].
    destruct (last_byte_is_Some (cmdStr +:+ line)) as [c ->];
      [by apply append_nonempty_l|].
    destruct (Ascii.eqb c backslash).
    + destruct (IH (fromLine + 1) (drop_last (cmdStr +:+ line) +:+ " ")
                  ({[fromLine]} ∪ used)) as (cmdStr' & n & -> & Hc & Hn);
        [by apply append_nonempty_r|].
      exists cmdStr', (S n). rewrite joined_step.
      repeat split; [done|cbn; lia].
    + exists (cmdStr +:+ line), 1%nat. rewrite joined_1.
      repeat split; [by apply append_nonempty_l|cbn; lia].
Qed.

Lemma joinLine_loop_first line rest fromLine used :
  line ≠ "" →
  ∃ cmdStr n,
    joinLine_loop (line :: rest) fromLine "" used
      = Ok (cmdStr, joined fromLine (S n) ∪ used)
    ∧ cmdStr ≠ "" ∧ (n ≤ length rest)%nat.
Proof.
  intros Hne. cbn [joinLine_loop]. change ("" +:+ line) with line.
  destruct (last_byte_is_Some line) as [c ->]; [done|].
  destruct (Ascii.eqb c backslash).
  - destruct (joinLine_loop_nonempty rest (fromLine + 1)
                (drop_last line +:+ " ") ({[fromLine]} ∪ used))
      as (cmdStr' & n & -> & Hc & Hn); [by apply append_nonempty_r|].
    exists cmdStr', n. by rewrite joined_step.
  - exists line, 0%nat. rewrite joined_1. repeat split; [done|lia].
Qed.

(** The set that [joinLine] is given only grows by what the call
    inserts: the rest of the call does not depend on it. *)
Lemma joinLine_loop_frame rest : ∀ fromLine cmdStr (used extra : gset Z),
  joinLine_loop rest fromLine cmdStr (used ∪ extra)
  = match joinLine_loop rest fromLine cmdStr used with
    | Ok (cmdStr', u) => Ok (cmdStr', u ∪ extra)
    | Panic => Panic
    end.
Proof.
  induction rest as [|line rest IH]; intros fromLine cmdStr used extra; [done|].
  cbn [joinLine_loop].
  destruct (last_byte (cmdStr +:+ line)) as [c|]; [|done].
  destruct (Ascii.eqb c backslash); [|by rewrite (assoc_L (∪))].
  by rewrite (assoc_L (∪)), IH.
Qed.

Lemma joinLine_frame lines fromLine (used : gset Z) :
  joinLine lines fromLine used
  = match joinLine lines fromLine ∅ with
    | Ok (cmdStr, u) => Ok (cmdStr, u ∪ used)
    | Panic => Panic
    end.
Proof.
  unfold joinLine. destruct (fromLine <? 0); [done|].
  rewrite <- joinLine_loop_frame. by rewrite (left_id_L ∅ (∪)).
Qed.

(** [joinLine] from a line that is not empty. *)
Lemma joinLine_from_line lines fromLine line used :
  0 ≤ fromLine → lines !! Z.to_nat fromLine = Some line → line ≠ "" →
  ∃ cmdStr n,
    joinLine lines fromLine used = Ok (cmdStr, joined fromLine (S n) ∪ used)
    ∧ joinLine_inserts lines fromLine = joined fromLine (S n)
    ∧ cmdStr ≠ ""
    ∧ fromLine + Z.of_nat (S n) ≤ Z.of_nat (length lines).
Proof.
  intros H0 Hl Hne.
  assert (∃ cmdStr n,
    joinLine lines fromLine ∅ = Ok (cmdStr, joined fromLine (S n))
    ∧ cmdStr ≠ "" ∧ fromLine + Z.of_nat (S n) ≤ Z.of_nat (length lines))
    as (cmdStr & n & E & Hc & Hn).
  { unfold joinLine. destruct (Z.ltb_spec fromLine 0) as [|_]; [lia|].
    pose proof (lookup_lt_Some _ _ _ Hl) as Hlt.
    rewrite (drop_S _ _ _ Hl).
    destruct (joinLine_loop_first line (drop (S (Z.to_nat fromLine)) lines)
                fromLine ∅ Hne) as (cmdStr & n & -> & Hc & Hn).
    exists cmdStr, n. rewrite (right_id_L ∅ (∪)). repeat split; [done|].
    rewrite length_drop in Hn. lia. }
  exists cmdStr, n. rewrite joinLine_frame. unfold joinLine_inserts.
  by rewrite E.
Qed.

(** C2. [joinLine] on the lines [a], [b c\], [d\], [e], [f] from
    line 1 returns [b c d e] and inserts exactly the indices 1, 2 and 3
    into [usedLines] (empty before the call, as in [TestJoinLine]). *)
Theorem joinLine_joins_continuations :
  joinLine Fixtures.joinLine_lines 1 ∅ = Ok ("b c d e", {[1; 2; 3]})
  ∧ joinLine_inserts Fixtures.joinLine_lines 1 = {[1; 2; 3]}.
Proof. split; vm_compute; reflexivity. Qed.

(** C9. When [lines[fromLine]] is not empty, [joinLine] returns: it
    never inspects the last byte of an empty string (the only panic of
    the loop), the command it returns is not empty, and the indices it
    inserts into [usedLines] are [fromLine], ..., [fromLine + n], all of
    them in the range from [fromLine] to [len(lines)] excluded. *)
Theorem joinLine_in_bounds lines fromLine line used :
  0 ≤ fromLine → lines !! Z.to_nat fromLine = Some line → line ≠ "" →
  ∃ cmdStr n,
    joinLine lines fromLine used = Ok (cmdStr, joined fromLine (S n) ∪ used)
    ∧ joinLine_inserts lines fromLine = joined fromLine (S n)
    ∧ cmdStr ≠ ""
    ∧ ∀ i, i ∈ joined fromLine (S n) →
           fromLine ≤ i < Z.of_nat (length lines).
Proof.
  intros H0 Hl Hne.
  destruct (joinLine_from_line lines fromLine line used H0 Hl Hne)
    as (cmdStr & n & E & Ei & Hc & Hn).
  exists cmdStr, n. split_and!; [done|done|done|].
  intros i Hi%elem_of_joined. lia.
Qed.

(** The theorem at the lines of [TestJoinLine], from line 1. *)
Lemma joinLine_in_bounds_witness :
  ∃ cmdStr n,
    joinLine Fixtures.joinLine_lines 1 {[0]}
      = Ok (cmdStr, joined 1 (S n) ∪ {[0]})
    ∧ joinLine_inserts Fixtures.joinLine_lines 1 = joined 1 (S n)
    ∧ cmdStr ≠ ""
    ∧ ∀ i, i ∈ joined 1 (S n) →
           1 ≤ i < Z.of_nat (length Fixtures.joinLine_lines).
Proof.
  apply (joinLine_in_bounds Fixtures.joinLine_lines 1 ("b c" +:+ str backslash)).
  - lia.
  - reflexivity.
  - discriminate.
Defined.

(** ** The loop of [Parse] *)

Create HintDb keeps.

Section Properties.

Context {W : Type} `{!Externals W}.
Implicit Types (m : Machine W) (msg : Message) (err : option error).

(** *** Only [joinLine] writes to [usedLines] *)

#[local] Abbreviation keeps_used := (@keeps_usedLines W _).

Lemma keeps_bind {A B} (c : Exec W A) (k : A → Exec W B) :
  keeps_used c → (∀ a, keeps_used (k a)) → keeps_used (c ≫= k).
Proof.
  intros Hc Hk m. unfold mbind, Exec_bind, bind.
  specialize (Hc m). destruct (c m) as [m' [a|]]; cbn in *; [|done].
  by rewrite Hk.
Qed.

Lemma keeps_ret {A} (a : A) : keeps_used (mret a : Exec W A).
Proof. done. Qed.
Lemma keeps_panic {A} : keeps_used (panic : Exec W A).
Proof. done. Qed.
Lemma keeps_of_result {A} (r : result A) : keeps_used (of_result r).
Proof. by destruct r. Qed.
Lemma keeps_call {A} (f : W → W * A) : keeps_used (call f).
Proof. intros m. unfold call. by destruct (f _). Qed.
Lemma keeps_log (f : W → W) : keeps_used (log f).
Proof. done. Qed.
Lemma keeps_ask {A} (f : W → A) : keeps_used (ask f).
Proof. done. Qed.
Lemma keeps_method {A} (f : State → W → State * W * A) :
  keeps_used (method f).
Proof. intros m. unfold method. by destruct (f _ _) as [[??]?]. Qed.
Lemma keeps_proc (f : State → W → State * W) : keeps_used (proc f).
Proof. intros m. unfold proc. by destruct (f _ _) as [??]. Qed.
Lemma keeps_get_status : keeps_used get_status.
Proof. done. Qed.
Lemma keeps_put_status s : keeps_used (put_status s).
Proof. done. Qed.
Lemma keeps_get_goExec : keeps_used get_goExec.
Proof. done. Qed.
Lemma keeps_put_goExec g : keeps_used (put_goExec g).
Proof. done. Qed.
Lemma keeps_log_if_failed err format args :
  keeps_used (log_if_failed err format args).
Proof. by destruct err. Qed.

#[local] Hint Resolve keeps_ret keeps_panic keeps_of_result keeps_call keeps_log
  keeps_ask keeps_method keeps_proc keeps_get_status keeps_put_status
  keeps_get_goExec keeps_put_goExec keeps_log_if_failed : keeps.

(** Walks through the binds and the case analyses of a statement. *)
Ltac keeps :=
  repeat first
    [ solve [auto with keeps]
    | apply keeps_bind; [|intros ?]
    | match goal with
      | |- keeps_usedLines (match ?x with _ => _ end) => destruct x
      | |- keeps_usedLines (let '(_, _) := (if ?b then _ else _) in _) =>
          destruct b
      end ].

Lemma keeps_execInternal msg cmdStr : keeps_used (execInternal msg cmdStr).
Proof. unfold execInternal. keeps. Qed.

Lemma keeps_execShell msg cmdStr : keeps_used (execShell msg cmdStr).
Proof. unfold execShell. keeps. Qed.

(** An iteration changes [usedLines] by [consume], whatever [execute]
    is and however the iteration ends. *)
Lemma Parse_line_usedLines msg execute codeLines lineNum line err m :
  usedLines (Parse_line msg execute codeLines lineNum line err m).1
  = consume codeLines lineNum line (usedLines m).
Proof.
  unfold Parse_line, consume.
  destruct (bool_decide _); [done|].
  destruct (is_special line); [|done].
  unfold mbind, Exec_bind, bind, call_joinLine.
  destruct (joinLine _ _ _) as [[cmdStr u]|]; [|done].
  set (m1 := set_usedLines u m).
  change u with (usedLines m1). generalize m1. clear. intros m.
  destruct cmdStr as [|cmdType cmdStr]; [done|].
  destruct (skip_spaces cmdStr) as [cmdStr'|]; [|done].
  destruct (len cmdStr' =? 0); [done|].
  destruct execute; [|done].
  destruct (Ascii.eqb cmdType percent).
  { pose proof (keeps_execInternal msg cmdStr' m) as K.
    destruct (execInternal msg cmdStr' m) as [m' [[e|]|]]; done. }
  destruct (Ascii.eqb cmdType bang); [|done].
  pose proof (keeps_execShell msg cmdStr' m) as K.
  destruct (execShell msg cmdStr' m) as [m' [[e|]|]]; try done.
  cbn in K. rewrite <- K.
  change (usedLines ((method AutoTrack ≫= λ err0,
            log_if_failed err0 "goExec.AutoTrack failed: %+v" [] ≫= λ _,
            mret (Next err0)) m').1 = usedLines m').
  apply keeps_bind; [auto with keeps|]. intros a.
  apply keeps_bind; auto with keeps.
Qed.

(** With [execute] false an iteration touches nothing but [usedLines],
    and either goes on with [err] as it was or panics. *)
Lemma Parse_line_dry msg codeLines lineNum line err m :
  let r := Parse_line msg false codeLines lineNum line err m in
  goExec r.1 = goExec m ∧ status r.1 = status m ∧ world r.1 = world m
  ∧ (r.2 = Ok (Next err) ∨ r.2 = Panic).
Proof.
  unfold Parse_line.
  destruct (bool_decide _); [by auto|].
  destruct (is_special line); [|by auto].
  unfold mbind, Exec_bind, bind, call_joinLine.
  destruct (joinLine _ _ _) as [[cmdStr u]|]; [|by auto].
  destruct cmdStr as [|cmdType cmdStr]; [by auto|].
  destruct (skip_spaces cmdStr) as [cmdStr'|]; [|by auto].
  destruct (len cmdStr' =? 0); by auto.
Qed.


(** The same for the rest of the loop. *)
Lemma Parse_loop_dry msg codeLines rest : ∀ lineNum err m,
  let r := Parse_loop msg false codeLines rest lineNum err m in
  goExec r.1 = goExec m ∧ status r.1 = status m ∧ world r.1 = world m
  ∧ (r.2 = Ok (ReturnEnd err) ∨ r.2 = Panic).
Proof.
  induction rest as [|line rest IH]; intros lineNum err m; [by auto|].
  cbn [Parse_loop]. unfold mbind, Exec_bind, bind.
  pose proof (Parse_line_dry msg codeLines lineNum line err m) as (Hg & Hs & Hw & Hr).
  destruct (Parse_line msg false codeLines lineNum line err m) as [m' r].
  cbn in Hg, Hs, Hw, Hr. destruct Hr as [-> | ->]; [|by auto].
  rewrite <- Hg, <- Hs, <- Hw. apply IH.
Qed.



(** *** No line is classified twice *)

Lemma is_special_nonempty line : is_special line = true → line ≠ "".
Proof. by destruct line. Qed.

(** The loop heads of a call are those of its run. *)
Lemma at_loop_head_run msg execute codeLines m0 n err m :
  at_loop_head msg execute codeLines m0 n err m →
  Parse msg execute codeLines m0
  = Parse_loop msg execute codeLines (drop n codeLines) (Z.of_nat n) err m.
Proof.
  induction 1 as [|n err m line err' m' _ IH Hline Hstep]; [done|].
  rewrite IH, (drop_S _ _ _ Hline). cbn [Parse_loop].
  unfold mbind, Exec_bind, bind. rewrite Hstep.
  by rewrite Nat2Z.inj_succ, <- Z.add_1_r.
Qed.



(** *** Directives *)

(** A name outside the dispatch table fails every [case] of the
    [switch]. *)
Lemma is_one_of_unknown name names :
  name ∉ dispatch_table → names ⊆ dispatch_table →
  is_one_of name names = false.
Proof.
  intros Hname Hsub. apply bool_decide_eq_false_2.
  intros Hin. by apply Hname, Hsub.
Qed.

(** C8. For a command name that is not in the dispatch table,
    [execInternal] publishes on the error stream the text made of a
    double quote, a percent sign, the name, a double quote and
    [ unknown or not implemented yet.] (a failure to publish is only
    logged) and returns a nil error; nothing else changes.  The
    message's content, if any, is taken to be a [map[string]any], as
    the kernel decodes it. *)
Theorem execInternal_unknown_command msg cmdStr name args content m :
  message_content msg = Ok content →
  splitCmd cmdStr = name :: args →
  name ∉ dispatch_table →
  let '(w, failed) :=
    PublishWriteStream msg StreamStderr
      (str dquote +:+ "%" +:+ name +:+ str dquote
         +:+ " unknown or not implemented yet.")
      (world m) in
  execInternal msg cmdStr m
  = (set_world
       match failed with
       | None => w
       | Some e =>
           klog_Errorf
             ("Error while reporting back on unimplemented message command "
                +:+ str dquote +:+ "%%%s" +:+ str dquote +:+ " kernel: %+v")
             [LogStr name; LogErr e] w
       end m,
     Ok None).
Proof.
  intros Hcontent Hparts Hname.
  unfold execInternal. rewrite Hcontent, Hparts.
  unfold mbind at 1. unfold Exec_bind, bind at 1. cbn [of_result mret Exec_ret ret].
  rewrite !(is_one_of_unknown name) by (done || compute_done).
  unfold mbind, Exec_bind, bind, call.
  destruct (PublishWriteStream _ _ _ _) as [w [e|]]; reflexivity.
Qed.

(** *** Runs that the code cuts short *)

(** C4 (the code falls short of the claim).  The first directive of
    [Fixtures.env_cell], [%env A], has a bad argument count:
    [execInternal] returns the error instead of reporting it, and
    [Parse] returns it from inside the loop, before the second
    directive is looked at: line 1 is not in [usedLines] and [goExec]
    is untouched, whereas a call with [execute] false consumes both
    lines. *)
Theorem Parse_env_argument_count g s w :
  let m := {| usedLines := ∅; goExec := g; status := s; world := w |} in
  Parse None true Fixtures.env_cell m
  = ({| usedLines := {[0]}; goExec := g;
        status := {| withInputs := false; withPassword := false |};
        world := w |},
     Ok (ReturnDirective (Errorf
       "`%%env <VAR_NAME> <value>`: it takes 2 arguments, the variable name and it's content, but %d were given"
       [ArgInt 1])))
  ∧ usedLines (Parse None false Fixtures.env_cell m).1 = {[0; 1]}.
Proof. split; vm_compute; reflexivity. Qed.

(** C5 (the code falls short of the claim).  The shell command of the
    cell [!ls] succeeds and [goExec.AutoTrack] fails with [e]: the
    failure is logged, but [e] stays in the named result [err], and
    [Parse] returns it after the loop. *)
Theorem Parse_returns_AutoTrack_error msg g s w w1 g2 w2 e :
  PipeExecToJupyter msg "/bin/bash" ["-c"; "ls"] "" NoInputs w = (w1, None) →
  AutoTrack g w1 = (g2, w2, Some e) →
  Parse msg true ["!ls"]
    {| usedLines := ∅; goExec := g; status := s; world := w |}
  = ({| usedLines := {[0]}; goExec := g2;
        status := {| withInputs := false; withPassword := false |};
        world := klog_Errorf "goExec.AutoTrack failed: %+v" [LogErr e] w2 |},
     Ok (ReturnEnd (Some e))).
Proof.
  intros Hshell Htrack.
  unfold Parse, mbind, Exec_bind, bind, put_status. cbn zeta iota beta.
  cbn [Parse_loop]. unfold mbind, Exec_bind, bind.
  unfold Parse_line. cbn [usedLines set_status].
  rewrite bool_decide_eq_false_2 by apply not_elem_of_empty.
  change (is_special "!ls") with true. cbn iota.
  unfold mbind, Exec_bind, bind, call_joinLine. cbn [usedLines set_status].
  change (joinLine ["!ls"] 0 ∅) with (Ok ("!ls", ({[0]} ∪ ∅ : gset Z))).
  rewrite (right_id_L ∅ (∪)). cbn iota beta.
  change (skip_spaces "ls") with (Some "ls").
  cbn iota beta. change (len "ls" =? 0) with false. cbn iota.
  change (Ascii.eqb "!" percent) with false.
  change (Ascii.eqb "!" bang) with true. cbn iota.
  unfold execShell, mbind, Exec_bind, bind, get_goExec, get_status, call,
    method, log_if_failed, log.
  cbn. rewrite Hshell. cbn. rewrite Htrack. reflexivity.
Qed.

(** A sigil followed by spaces: [joinLine] returns it, the scan of
    [Parse] takes it for a directive, and the loop that skips the
    spaces runs off its end. *)
Lemma last_byte_spaces c n : last_byte (String c (spaces (S n))) = Some space.
Proof.
  revert c. induction n as [|n IH]; intros c; [done|].
  change (last_byte (String c (spaces (S (S n)))))
    with (last_byte (String space (spaces (S n)))). apply IH.
Qed.

Lemma joinLine_spaces c n :
  joinLine [String c (spaces (S n))] 0 ∅
  = Ok (String c (spaces (S n)), {[0]}).
Proof.
  unfold joinLine. change (0 <? 0) with false.
  change (drop (Z.to_nat 0) [?l]) with [l].
  cbn [joinLine_loop]. change ("" +:+ ?x) with x.
  rewrite last_byte_spaces. change (Ascii.eqb space backslash) with false.
  by rewrite (right_id_L ∅ (∪)).
Qed.

Lemma skip_spaces_spaces n : skip_spaces (spaces n) = None.
Proof. induction n as [|n IH]; [done|]. exact IH. Qed.

Lemma is_special_spaces c n :
  Ascii.eqb c percent || Ascii.eqb c bang = true →
  is_special (String c (spaces (S n))) = true.
Proof.
  intros Hc. unfold is_special. rewrite Hc, andb_true_r.
  apply Z.ltb_lt. unfold len. cbn [String.length spaces]. lia.
Qed.

(** C6 (the code falls short of the claim).  On a line made of a
    sigil and spaces only, [Parse] panics, whatever [execute] is: the
    loop that skips the spaces reads [cmdStr[0]] of the empty string,
    and the test that skips empty commands is never reached. *)
Theorem Parse_blank_directive_panics msg execute (sigil : bool) n g s w :
  let line := String (if sigil then percent else bang) (spaces (S n)) in
  Parse msg execute [line]
    {| usedLines := ∅; goExec := g; status := s; world := w |}
  = ({| usedLines := {[0]}; goExec := g;
        status := {| withInputs := false; withPassword := false |};
        world := w |},
     Panic).
Proof.
  intros line.
  unfold Parse, mbind, Exec_bind, bind, put_status. cbn zeta iota beta.
  cbn [Parse_loop]. unfold mbind, Exec_bind, bind.
  unfold Parse_line. cbn [usedLines set_status].
  rewrite bool_decide_eq_false_2 by apply not_elem_of_empty.
  unfold line. rewrite is_special_spaces by by destruct sigil.
  unfold mbind, Exec_bind, bind, call_joinLine.
  cbn [usedLines set_status]. rewrite joinLine_spaces. cbn iota beta.
  by rewrite skip_spaces_spaces.
Qed.

End Properties.

(** ** Runs in the recording world *)


(** [execInternal_unknown_command] on the directive [%foo bar], with the
    nil message of the tests. *)
Lemma execInternal_unknown_command_witness :
  message_content None = Ok None
  ∧ splitCmd "foo bar" = ["foo"; "bar"]
  ∧ ("foo" ∉ dispatch_table)
  ∧ execInternal None "foo bar" (Sim.initial [])
    = (set_world
         (Sim.record
            (Sim.EvPublish StreamStderr
               (str dquote +:+ "%foo" +:+ str dquote
                  +:+ " unknown or not implemented yet."))
            (world (Sim.initial []))) (Sim.initial []),
       Ok None).
Proof.
  assert ("foo" ∉ dispatch_table) as Hname by compute_done.
  split_and!; [reflexivity|reflexivity|exact Hname|].
  exact (execInternal_unknown_command None "foo bar" "foo" ["bar"] None
           (Sim.initial []) eq_refl eq_refl Hname).
Defined.

(** [Parse_returns_AutoTrack_error] in a world where [AutoTrack] fails
    and everything else succeeds. *)
Lemma Parse_returns_AutoTrack_error_witness :
  (Parse None true ["!ls"] (Sim.initial ["goexec.AutoTrack"])).2
  = Ok (ReturnEnd (Some (Foreign "goexec.AutoTrack")))
  ∧ Sim.trace
      (world (Parse None true ["!ls"] (Sim.initial ["goexec.AutoTrack"])).1)
    = [Sim.EvLogError "goExec.AutoTrack failed: %+v"
         [LogErr (Foreign "goexec.AutoTrack")];
       Sim.EvGoExec "AutoTrack" [];
       Sim.EvExec "/bin/bash" ["-c"; "ls"] "" NoInputs].
Proof.
  set (m := Sim.initial ["goexec.AutoTrack"]).
  pose proof (Parse_returns_AutoTrack_error None (goExec m) (status m)
                (world m) _ _ _ _ eq_refl eq_refl) as Hrun.
  change {| usedLines := ∅; goExec := goExec m; status := status m;
            world := world m |} with m in Hrun.
  rewrite Hrun. split; reflexivity.
Defined.

(** [TestDirEnv]: the cell [%cd /tmp] with a nil message returns no
    error, consumes line 0, and sets the variable of
    [protocol.GONB_DIR_ENV] to the new directory. *)
Example Parse_cd_sets_dir_env :
  (Parse None true ["%cd /tmp"] (Sim.initial [])).2 = Ok (ReturnEnd None)
  ∧ usedLines (Parse None true ["%cd /tmp"] (Sim.initial [])).1 = {[0]}
  ∧ head (Sim.trace (world (Parse None true ["%cd /tmp"] (Sim.initial [])).1))
    = Some (Sim.EvSetenv "GONB_DIR" "/tmp").
Proof. split_and!; vm_compute; reflexivity. Qed.


(** A sigil followed by a tab: with [execute] true the directive
    reaches [execInternal], whose [parts[0]] panics on the empty list of
    parts. *)
Lemma Parse_tab_directive_panics :
  (Parse None true ["%" +:+ str tab] (Sim.initial [])).2 = Panic
  ∧ (Parse None false ["%" +:+ str tab] (Sim.initial [])).2
    = Ok (ReturnEnd None).
Proof. split; vm_compute; reflexivity. Qed.

(** * Further properties *)

(** ** More on the directive lexer *)

Lemma append_cons c s t : String c s +:+ t = String c (s +:+ t).
Proof. reflexivity. Qed.

Lemma append_nil_r s : s +:+ "" = s.
Proof. induction s as [|c s IH]; [done|]. by rewrite append_cons, IH. Qed.

Lemma append_assoc s t u : (s +:+ t) +:+ u = s +:+ (t +:+ u).
Proof. induction s as [|c s IH]; [done|]. by rewrite !append_cons, IH. Qed.

Lemma length_append s t :
  String.length (s +:+ t) = (String.length s + String.length t)%nat.
Proof.
  induction s as [|c s IH]; [done|]. rewrite append_cons. cbn. by rewrite IH.
Qed.

Lemma flush_app p parts part partStarted :
  flush (p ++ parts) part partStarted
  = (p ++ flush parts part partStarted)%list.
Proof. destruct partStarted; cbn; [by rewrite (assoc_L (++))|done]. Qed.

(** The parts already closed are passed through unchanged. *)
Lemma splitCmd_loop_app_bounded n : ∀ cmd p parts part partStarted inQuotes,
  (String.length cmd ≤ n)%nat →
  splitCmd_loop cmd (p ++ parts) part partStarted inQuotes
  = (p ++ splitCmd_loop cmd parts part partStarted inQuotes)%list.
Proof.
  induction n as [|n IH]; intros cmd p parts part partStarted inQuotes Hn.
  { destruct cmd; [apply flush_app|cbn in Hn; lia]. }
  destruct cmd as [|c cmd]; [apply flush_app|].
  cbn [splitCmd_loop]. cbn [String.length] in Hn.
  destruct (negb inQuotes && isSpace c).
  { rewrite flush_app. apply IH. lia. }
  destruct (Ascii.eqb c dquote).
  { destruct inQuotes; apply IH; lia. }
  destruct (Ascii.eqb c backslash && inQuotes); [|apply IH; lia].
  destruct cmd as [|c2 cmd]; [apply flush_app|].
  cbn [String.length] in Hn. apply IH. lia.
Qed.

Lemma splitCmd_loop_closed cmd p part partStarted inQuotes :
  splitCmd_loop cmd p part partStarted inQuotes
  = (p ++ splitCmd_loop cmd [] part partStarted inQuotes)%list.
Proof.
  rewrite <- (splitCmd_loop_app_bounded (String.length cmd)) by done.
  by rewrite (right_id_L [] (++)).
Qed.

(** X1. A command of separators only has no parts, so that
    [execInternal], which reads [parts[0]], panics on it whatever the
    message is, leaving the machine as it was. *)
Theorem splitCmd_blank cmdStr :
  all_spaces cmdStr = true →
  splitCmd cmdStr = []
  ∧ ∀ (W : Type) (E : Externals W) (msg : Message) (m : Machine W),
      execInternal msg cmdStr m = (m, Panic).
Proof.
  intros Hblank.
  assert (splitCmd cmdStr = []) as Hparts.
  { unfold splitCmd. induction cmdStr as [|c cmdStr IH]; [done|].
    cbn [all_spaces] in Hblank. apply andb_prop in Hblank as [Hc Hrest].
    cbn [splitCmd_loop negb andb]. rewrite Hc. by apply IH. }
  split; [done|]. intros W E msg m.
  unfold execInternal. rewrite Hparts.
  unfold mbind, Exec_bind, bind.
  by destruct (message_content msg).
Qed.

Lemma splitCmd_blank_witness :
  all_spaces (" " +:+ str tab +:+ str newline) = true
  ∧ splitCmd (" " +:+ str tab +:+ str newline) = []
  ∧ execInternal None (" " +:+ str tab +:+ str newline) (Sim.initial [])
    = (Sim.initial [], Panic).
Proof.
  split; [reflexivity|].
  destruct (splitCmd_blank (" " +:+ str tab +:+ str newline) eq_refl)
    as [Hparts Hexec].
  split; [exact Hparts|apply Hexec].
Defined.

(** X2. Two commands put side by side with separators between them
    give the parts of the first followed by the parts of the second,
    provided the first has no double quote (so that it ends outside
    quotes).  With an empty first command: leading separators are
    ignored. *)
Theorem splitCmd_concat a ws b :
  all_bytes (λ c, negb (Ascii.eqb c dquote)) a = true →
  all_spaces ws = true → ws ≠ "" →
  splitCmd (a +:+ ws +:+ b) = (splitCmd a ++ splitCmd b)%list.
Proof.
  intros Ha Hws Hne. unfold splitCmd.
  assert (∀ parts part partStarted,
    splitCmd_loop (a +:+ ws +:+ b) parts part partStarted false
    = (splitCmd_loop a parts part partStarted false
       ++ splitCmd_loop b [] "" false false)%list) as Hloop; [|apply Hloop].
  induction a as [|c a IH]; intros parts part partStarted.
  - change ("" +:+ ?x) with x. rewrite splitCmd_loop_spaces by done.
    by rewrite splitCmd_loop_closed.
  - cbn [all_bytes] in Ha. apply andb_prop in Ha as [Hc Ha].
    apply negb_true_iff in Hc. rewrite append_cons.
    cbn [splitCmd_loop negb andb]. rewrite Hc, andb_false_r.
    destruct (isSpace c); by apply IH.
Qed.

Lemma splitCmd_concat_witness :
  all_bytes (λ c, negb (Ascii.eqb c dquote)) "env  A" = true
  ∧ all_spaces (str tab +:+ " ") = true
  ∧ str tab +:+ " " ≠ ""
  ∧ splitCmd ("env  A" +:+ (str tab +:+ " ") +:+ quote "b c")
    = ["env"; "A"; "b c"].
Proof.
  split_and!; [reflexivity|reflexivity|discriminate|].
  rewrite (splitCmd_concat "env  A" (str tab +:+ " ") (quote "b c"));
    [reflexivity|reflexivity|reflexivity|discriminate].
Defined.

Lemma utf8_of_bytes_ascii s : all_bytes is_ascii s = true → utf8_of_bytes s = s.
Proof.
  induction s as [|c s IH]; [done|]. cbn [all_bytes utf8_of_bytes].
  intros [Hc Hs]%andb_prop. rewrite IH by done.
  unfold utf8_of_byte. unfold is_ascii in Hc. by rewrite Hc.
Qed.

(** X3. A non-empty word (no separator, no double quote) is one part.
    Its bytes are written through [%c]: the part is the word itself
    when all its bytes are below 128, and otherwise every byte from 128
    on has become the two bytes of its UTF-8 encoding.  A backslash
    outside quotes is an ordinary byte. *)
Theorem splitCmd_word w :
  all_bytes is_word_byte w = true → w ≠ "" →
  splitCmd w = [utf8_of_bytes w]
  ∧ (all_bytes is_ascii w = true → splitCmd w = [w]).
Proof.
  intros Hw Hne.
  assert (∀ parts part partStarted,
    splitCmd_loop w parts part partStarted false
    = flush parts (part +:+ utf8_of_bytes w)
        (partStarted || match w with EmptyString => false | _ => true end))
    as Hloop.
  { clear Hne. induction w as [|c w IH]; intros parts part partStarted.
    - cbn. by rewrite append_nil_r, orb_false_r.
    - cbn [all_bytes] in Hw. apply andb_prop in Hw as [Hc Hw].
      unfold is_word_byte in Hc. apply andb_prop in Hc as [Hs Hq].
      apply negb_true_iff in Hs, Hq.
      cbn [splitCmd_loop negb andb utf8_of_bytes].
      rewrite Hs, Hq, andb_false_r. rewrite IH by done.
      unfold Sprintf_s_c. by rewrite append_assoc, orb_true_r. }
  assert (splitCmd w = [utf8_of_bytes w]) as Hparts.
  { unfold splitCmd. rewrite Hloop. by destruct w. }
  split; [done|]. intros Hascii. by rewrite Hparts, utf8_of_bytes_ascii.
Qed.

(** The theorem on a word with a backslash, and the two bytes that a
    byte from 128 on becomes. *)
Lemma splitCmd_word_witness :
  splitCmd ("a" +:+ str backslash +:+ "n") = ["a" +:+ str backslash +:+ "n"]
  ∧ splitCmd (str (ascii_of_nat 233))
    = [String (ascii_of_nat 195) (str (ascii_of_nat 169))].
Proof.
  split.
  - apply (splitCmd_word ("a" +:+ str backslash +:+ "n"));
      [reflexivity|discriminate|reflexivity].
  - apply (splitCmd_word (str (ascii_of_nat 233))); [reflexivity|discriminate].
Defined.

Lemma utf8_of_byte_ascii c : is_ascii c = true → utf8_of_byte c = str c.
Proof. unfold utf8_of_byte, is_ascii. by intros ->. Qed.

(** Inside quotes, an escaped text is read back byte for byte. *)
Lemma splitCmd_loop_escape s : ∀ rest parts part,
  all_bytes is_ascii s = true →
  splitCmd_loop (escape s +:+ rest) parts part true true
  = splitCmd_loop rest parts (part +:+ s) true true.
Proof.
  induction s as [|c s IH]; intros rest parts part Hs.
  { by rewrite append_nil_r. }
  cbn [all_bytes] in Hs. apply andb_prop in Hs as [Hc Hs].
  assert (part +:+ String c s = (part +:+ str c) +:+ s) as ->
    by by rewrite append_assoc.
  cbn [escape].
  destruct (Ascii.eqb_spec c dquote) as [->|Hq].
  { cbn [orb]. rewrite !append_cons. rewrite <- IH by done. reflexivity. }
  destruct (Ascii.eqb_spec c backslash) as [->|Hb].
  { cbn [orb]. rewrite !append_cons. rewrite <- IH by done. reflexivity. }
  cbn [orb]. rewrite append_cons. cbn [splitCmd_loop negb andb].
  rewrite (proj2 (Ascii.eqb_neq _ _) Hq), (proj2 (Ascii.eqb_neq _ _) Hb).
  cbn [andb]. rewrite <- IH by done.
  unfold Sprintf_s_c. by rewrite utf8_of_byte_ascii.
Qed.

(** X4. Quoting round trip: any text of bytes below 128, separators,
    quotes and backslashes included, comes back as exactly one part
    when it is written between double quotes with a backslash before
    each of its double quotes and backslashes.  The empty text gives
    one empty part. *)
Theorem splitCmd_quote s :
  all_bytes is_ascii s = true → splitCmd (quote s) = [s].
Proof.
  intros Hs. unfold splitCmd, quote, str. rewrite append_cons.
  change ("" +:+ ?x) with x.
  cbn [splitCmd_loop negb andb].
  change (isSpace dquote) with false. change (Ascii.eqb dquote dquote) with true.
  cbn iota. rewrite splitCmd_loop_escape by done. reflexivity.
Qed.

Lemma splitCmd_quote_witness :
  all_bytes is_ascii ("say " +:+ str dquote +:+ "hi" +:+ str dquote
                        +:+ str backslash +:+ "n") = true
  ∧ splitCmd (quote ("say " +:+ str dquote +:+ "hi" +:+ str dquote
                        +:+ str backslash +:+ "n"))
    = ["say " +:+ str dquote +:+ "hi" +:+ str dquote +:+ str backslash +:+ "n"]
  ∧ splitCmd (quote "") = [""].
Proof.
  split_and!; [reflexivity| |].
  - apply (splitCmd_quote ("say " +:+ str dquote +:+ "hi" +:+ str dquote
                             +:+ str backslash +:+ "n")). reflexivity.
  - apply (splitCmd_quote ""). reflexivity.
Defined.

(** ** More on [joinLine] *)

Lemma last_byte_append s t :
  last_byte (s +:+ t) = match t with EmptyString => last_byte s | _ => last_byte t end.
Proof.
  destruct t as [|c t]; [by rewrite append_nil_r|].
  induction s as [|a s IH]; [done|]. rewrite append_cons.
  change (last_byte (String a (s +:+ String c t)))
    with (match s +:+ String c t with
          | EmptyString => Some a
          | _ => last_byte (s +:+ String c t)
          end).
  destruct (s +:+ String c t) eqn:E; [by destruct s|]. exact IH.
Qed.

Lemma length_drop_last s :
  s ≠ "" → String.length (drop_last s +:+ " ") = String.length s.
Proof.
  intros Hne. rewrite length_append. cbn [String.length].
  induction s as [|c [|c' s'] IH]; [done|done|].
  change (drop_last (String c (String c' s')))
    with (String c (drop_last (String c' s'))).
  cbn [String.length] in *. specialize (IH ltac:(done)). lia.
Qed.

(** X5. For a [fromLine] that is not negative (and a set that is
    allocated, as every caller passes), the three outcomes of
    [joinLine]: at or past the end of [lines] it returns the empty
    command and the set unchanged; on an empty line [lines[fromLine]]
    it panics (the last byte of the empty accumulated command is
    read); on a line that is not empty it returns a command that is
    not empty, with [fromLine] in the set. *)
Theorem joinLine_outcome lines fromLine used :
  0 ≤ fromLine →
  (lines !! Z.to_nat fromLine = None →
   joinLine lines fromLine used = Ok ("", used))
  ∧ (lines !! Z.to_nat fromLine = Some "" →
     joinLine lines fromLine used = Panic)
  ∧ (∀ line, lines !! Z.to_nat fromLine = Some line → line ≠ "" →
     ∃ cmdStr used', joinLine lines fromLine used = Ok (cmdStr, used')
       ∧ cmdStr ≠ "" ∧ fromLine ∈ used').
Proof.
  intros Hpos. unfold joinLine.
  destruct (Z.ltb_spec fromLine 0) as [|_]; [lia|]. split_and!.
  - intros Hnone. by rewrite drop_ge by by apply lookup_ge_None.
  - intros Hline. by rewrite (drop_S _ _ _ Hline).
  - intros line Hline Hne.
    destruct (joinLine_from_line lines fromLine line used Hpos Hline Hne)
      as (cmdStr & n & E & _ & Hc & _).
    unfold joinLine in E. destruct (Z.ltb_spec fromLine 0); [lia|].
    exists cmdStr, (joined fromLine (S n) ∪ used). split_and!; [done|done|].
    apply elem_of_union. left. apply elem_of_joined. lia.
Qed.

Lemma joinLine_outcome_witness :
  joinLine ["%a"; ""] 2 {[0]} = Ok ("", {[0]})
  ∧ joinLine ["%a"; ""] 1 {[0]} = Panic
  ∧ ∃ cmdStr used', joinLine ["%a"; ""] 0 ∅ = Ok (cmdStr, used')
      ∧ cmdStr ≠ "" ∧ 0 ∈ used'.
Proof.
  destruct (joinLine_outcome ["%a"; ""] 2 {[0]} ltac:(lia)) as (Hend & _ & _).
  destruct (joinLine_outcome ["%a"; ""] 1 {[0]} ltac:(lia)) as (_ & Hempty & _).
  destruct (joinLine_outcome ["%a"; ""] 0 ∅ ltac:(lia)) as (_ & _ & Hline).
  split_and!; [by apply Hend|by apply Hempty|].
  apply (Hline "%a"); [reflexivity|discriminate].
Defined.

(** The loop of [joinLine] consumes a block of consecutive lines; the
    command keeps the bytes of the lines one for one, and its last byte
    is no backslash if that of the command it started from was none. *)
Lemma joinLine_loop_shape rest : ∀ fromLine cmdStr used cmdStr' used',
  joinLine_loop rest fromLine cmdStr used = Ok (cmdStr', used') →
  ∃ n, (n ≤ length rest)%nat
    ∧ used' = joined fromLine n ∪ used
    ∧ String.length cmdStr'
      = (String.length cmdStr + sum_list (String.length <$> take n rest))%nat
    ∧ (last_byte cmdStr ≠ Some backslash → last_byte cmdStr' ≠ Some backslash).
Proof.
  induction rest as [|line rest IH]; intros fromLine cmdStr used cmdStr' used' Hrun.
  { cbn in Hrun. injection Hrun as <- <-. exists 0%nat.
    rewrite joined_0. cbn. split_and!; [done|done|lia|done]. }
  cbn [joinLine_loop] in Hrun.
  destruct (last_byte (cmdStr +:+ line)) as [c|] eqn:Hlast; [|done].
  destruct (Ascii.eqb_spec c backslash) as [->|Hc].
  - apply IH in Hrun as (n & Hn & -> & Hlen & Hback).
    exists (S n). rewrite joined_step. split_and!; [cbn; lia|done| |].
    + rewrite Hlen, length_drop_last, length_append by by intros E; rewrite E in Hlast.
      cbn [take fmap list_fmap sum_list sum_list_with id]. lia.
    + intros _. apply Hback. by rewrite last_byte_append.
  - injection Hrun as <- <-. exists 1%nat. rewrite joined_1.
    split_and!; [cbn; lia|done| |].
    + rewrite length_append.
      cbn [take fmap list_fmap sum_list sum_list_with id].
      change (take 0 rest) with (@nil string). cbn. lia.
    + intros _. rewrite Hlast. by intros [=].
Qed.

(** X6. A command returned by [joinLine] never ends with a
    backslash: every continuation marker has been replaced by a space,
    also the one of the last line of the cell. *)
Theorem joinLine_no_trailing_backslash lines fromLine used cmdStr used' :
  joinLine lines fromLine used = Ok (cmdStr, used') →
  last_byte cmdStr ≠ Some backslash.
Proof.
  unfold joinLine. destruct (fromLine <? 0); [done|]. intros Hrun.
  apply joinLine_loop_shape in Hrun as (n & _ & _ & _ & Hback).
  by apply Hback.
Qed.

Lemma joinLine_no_trailing_backslash_witness :
  joinLine ["!ls" +:+ str backslash; "-l" +:+ str backslash] 0 ∅
    = Ok ("!ls -l ", {[0; 1]})
  ∧ last_byte "!ls -l " ≠ Some backslash.
Proof.
  assert (joinLine ["!ls" +:+ str backslash; "-l" +:+ str backslash] 0 ∅
          = Ok ("!ls -l ", ({[0; 1]} : gset Z))) as Hrun
    by (vm_compute; reflexivity).
  split; [exact Hrun|].
  exact (joinLine_no_trailing_backslash _ _ _ _ _ Hrun).
Defined.

(** X7. When [joinLine] returns, the indices it has inserted are a
    block of [n] consecutive lines from [fromLine], inside [lines], and
    the command has as many bytes as these lines together: joining
    replaces each continuation backslash by one space and adds
    nothing else. *)
Theorem joinLine_block lines fromLine used cmdStr used' :
  joinLine lines fromLine used = Ok (cmdStr, used') →
  ∃ n : nat,
    used' = joined fromLine n ∪ used
    ∧ (n = 0%nat ∨ fromLine + Z.of_nat n ≤ Z.of_nat (length lines))
    ∧ String.length cmdStr
      = sum_list (String.length <$> take n (drop (Z.to_nat fromLine) lines)).
Proof.
  unfold joinLine. destruct (Z.ltb_spec fromLine 0) as [|Hpos]; [done|].
  intros Hrun.
  apply joinLine_loop_shape in Hrun as (n & Hn & -> & Hlen & _).
  exists n. split_and!; [done| |done].
  rewrite length_drop in Hn. destruct n; [by left|right; lia].
Qed.

Lemma joinLine_block_witness :
  ∃ n : nat,
    ({[1; 2; 3]} : gset Z) = joined 1 n ∪ ∅
    ∧ (n = 0%nat ∨ 1 + Z.of_nat n ≤ Z.of_nat (length Fixtures.joinLine_lines))
    ∧ String.length "b c d e"
      = sum_list (String.length <$>
                    take n (drop (Z.to_nat 1) Fixtures.joinLine_lines)).
Proof.
  apply (joinLine_block Fixtures.joinLine_lines 1 ∅ "b c d e" {[1; 2; 3]}).
  vm_compute. reflexivity.
Defined.

(** X8. What [joinLine] returns does not depend on the set it is
    given: the command is the same for any two sets, and the set comes
    back with the same indices added, none removed. *)
Theorem joinLine_ignores_usedLines lines fromLine used used2 cmdStr used' :
  joinLine lines fromLine used = Ok (cmdStr, used') →
  used ⊆ used'
  ∧ used' = joinLine_inserts lines fromLine ∪ used
  ∧ joinLine lines fromLine used2
    = Ok (cmdStr, joinLine_inserts lines fromLine ∪ used2).
Proof.
  rewrite (joinLine_frame lines fromLine used).
  rewrite (joinLine_frame lines fromLine used2). unfold joinLine_inserts.
  destruct (joinLine lines fromLine ∅) as [[c u]|]; [|done].
  intros [= <- <-]. split_and!; [|done|done].
  intros x Hx. apply elem_of_union. by right.
Qed.

Lemma joinLine_ignores_usedLines_witness :
  joinLine Fixtures.joinLine_lines 1 {[0]} = Ok ("b c d e", {[0; 1; 2; 3]})
  ∧ joinLine Fixtures.joinLine_lines 1 {[7]}
    = Ok ("b c d e", joinLine_inserts Fixtures.joinLine_lines 1 ∪ {[7]}).
Proof.
  assert (joinLine Fixtures.joinLine_lines 1 {[0]}
          = Ok ("b c d e", ({[0; 1; 2; 3]} : gset Z))) as Hrun
    by (vm_compute; reflexivity).
  split; [exact Hrun|].
  exact (proj2 (proj2 (joinLine_ignores_usedLines _ _ _ {[7]} _ _ Hrun))).
Defined.

(** Past the line it starts from, the loop of [joinLine] only takes a
    line whose predecessor ends with a backslash. *)
Lemma joinLine_loop_continuations rest : ∀ fromLine cmdStr used cmdStr' used',
  joinLine_loop rest fromLine cmdStr used = Ok (cmdStr', used') →
  last_byte cmdStr ≠ Some backslash →
  ∀ i, i ∈ used' →
    i ∈ used ∨ (rest ≠ [] ∧ i = fromLine)
    ∨ ∃ (k : nat) prev, i = fromLine + Z.of_nat (S k)
        ∧ rest !! k = Some prev ∧ last_byte prev = Some backslash
        ∧ (S k < length rest)%nat.
Proof.
  induction rest as [|line rest IH];
    intros fromLine cmdStr used cmdStr' used' Hrun Hcmd i Hi.
  { cbn in Hrun. injection Hrun as <- <-. by left. }
  cbn [joinLine_loop] in Hrun.
  destruct (last_byte (cmdStr +:+ line)) as [c|] eqn:Hlast; [|done].
  destruct (Ascii.eqb_spec c backslash) as [->|Hc].
  - assert (last_byte line = Some backslash) as Hline.
    { rewrite last_byte_append in Hlast. by destruct line. }
    eapply IH in Hrun; [|by rewrite last_byte_append|exact Hi].
    destruct Hrun as [[->%elem_of_singleton|Hin]%elem_of_union
                     |[[Hrest ->]|(k & prev & -> & Hk & Hprev & Hlen)]].
    + right. by left.
    + by left.
    + right. right. exists 0%nat, line. split_and!; [lia|done|done|].
      destruct rest; [done|cbn; lia].
    + right. right. exists (S k), prev. split_and!; [lia|done|done|cbn; lia].
  - injection Hrun as <- <-.
    apply elem_of_union in Hi as [->%elem_of_singleton|Hin];
      [right; by left|by left].
Qed.

Lemma joinLine_continuations lines fromLine used cmdStr used' :
  joinLine lines fromLine used = Ok (cmdStr, used') →
  ∀ i, i ∈ used' →
    i ∈ used ∨ i = fromLine
    ∨ (fromLine < i ∧ ∃ prev, lines !! Z.to_nat (i - 1) = Some prev
                        ∧ last_byte prev = Some backslash
                        ∧ i < Z.of_nat (length lines)).
Proof.
  unfold joinLine. destruct (Z.ltb_spec fromLine 0) as [|Hpos]; [done|].
  intros Hrun i Hi.
  destruct (joinLine_loop_continuations _ _ _ _ _ _ Hrun ltac:(done) i Hi)
    as [Hin|[[_ ->]|(k & prev & -> & Hk & Hprev & Hlen)]];
    [by left|right; by left|].
  right. right. split; [lia|]. exists prev.
  rewrite lookup_drop in Hk. rewrite length_drop in Hlen.
  split_and!; [|done|lia].
  by replace (Z.to_nat (fromLine + Z.of_nat (S k) - 1))
    with (Z.to_nat fromLine + k)%nat by lia.
Qed.

(** The first two bytes of the command are those of the line it
    starts from, when the second is no backslash. *)
Lemma joinLine_loop_prefix a b rest : ∀ line fromLine cmdStr used t cmdStr' used',
  b ≠ backslash →
  cmdStr +:+ line = String a (String b t) →
  joinLine_loop (line :: rest) fromLine cmdStr used = Ok (cmdStr', used') →
  ∃ t', cmdStr' = String a (String b t').
Proof.
  induction rest as [|line2 rest IH];
    intros line fromLine cmdStr used t cmdStr' used' Hb Hcmd Hrun;
    cbn [joinLine_loop] in Hrun; rewrite Hcmd in Hrun;
    (destruct (last_byte (String a (String b t))) as [c|] eqn:Hlast; [|done]);
    (destruct (Ascii.eqb_spec c backslash) as [->|Hc];
      [|injection Hrun as <- <-; by eexists]);
    (destruct t as [|x t]; [cbn in Hlast; congruence|]);
    change (drop_last (String a (String b (String x t))))
      with (String a (String b (drop_last (String x t)))) in Hrun.
  - injection Hrun as <- <-. rewrite !append_cons. by eexists.
  - eapply IH in Hrun; [exact Hrun|done|]. rewrite !append_cons. reflexivity.
Qed.

(** ** More on [Parse] *)

Section MoreProperties.

Context {W : Type} `{!Externals W}.
Implicit Types (m : Machine W) (msg : Message) (err : option error).

(** What one iteration adds to [usedLines]. *)
Lemma consume_spec codeLines (n : nat) line used :
  codeLines !! n = Some line →
  used ⊆ consume codeLines (Z.of_nat n) line used
  ∧ (∀ i, i ∈ consume codeLines (Z.of_nat n) line used →
          i ∈ used ∨ (Z.of_nat n ≤ i ∧ consumable codeLines i))
  ∧ (is_special line = true →
     Z.of_nat n ∈ consume codeLines (Z.of_nat n) line used).
Proof.
  intros Hline. unfold consume.
  case_bool_decide as Hin; [split_and!; [done|by left|done]|].
  destruct (is_special line) eqn:Hspecial; [|split_and!; [done|by left|done]].
  destruct (joinLine_from_line codeLines (Z.of_nat n) line used)
    as (cmdStr & j & Hrun & _ & _ & _);
    [lia|by rewrite Nat2Z.id|by apply is_special_nonempty|].
  rewrite Hrun. split_and!.
  - intros x Hx. apply elem_of_union. by right.
  - intros i Hi.
    destruct (joinLine_continuations _ _ _ _ _ Hrun i Hi)
      as [Hused|[->|(Hlt & prev & Hprev & Hback & Hlen)]]; [by left| |].
    + right. split; [lia|]. split; [lia|]. exists line.
      rewrite Nat2Z.id. split; [done|by left].
    + right. split; [lia|]. split; [lia|].
      destruct (lookup_lt_is_Some_2 codeLines (Z.to_nat i)) as [l Hl]; [lia|].
      exists l. split; [done|]. right. split; [lia|]. by exists prev.
  - intros _. apply elem_of_union. left. apply elem_of_joined. lia.
Qed.

(** The loop from line [n] on: [usedLines] grows, by consumable lines
    from [n] on only, and a run that reaches the end has taken every
    directive line from [n] on. *)
Lemma Parse_loop_consumes msg execute codeLines rest : ∀ (n : nat) err m,
  drop n codeLines = rest →
  let r := Parse_loop msg execute codeLines rest (Z.of_nat n) err m in
  usedLines m ⊆ usedLines r.1
  ∧ (∀ i, i ∈ usedLines r.1 →
          i ∈ usedLines m ∨ (Z.of_nat n ≤ i ∧ consumable codeLines i))
  ∧ (∀ e, r.2 = Ok (ReturnEnd e) →
      ∀ (i : nat) line, (n ≤ i)%nat → codeLines !! i = Some line →
        is_special line = true → Z.of_nat i ∈ usedLines r.1).
Proof.
  induction rest as [|line rest IH]; intros n err m Hdrop.
  { cbn. split_and!; [done|by left|].
    intros _ _ i l Hi Hl _. apply lookup_lt_Some in Hl.
    apply (f_equal length) in Hdrop. rewrite length_drop in Hdrop.
    cbn in Hdrop. lia. }
  assert (codeLines !! n = Some line) as Hline.
  { rewrite <- (Nat.add_0_r n), <- lookup_drop. by rewrite Hdrop. }
  assert (drop (S n) codeLines = rest) as Hrest.
  { rewrite (drop_S _ _ _ Hline) in Hdrop. by injection Hdrop. }
  cbn [Parse_loop]. unfold mbind, Exec_bind, bind.
  pose proof (Parse_line_usedLines msg execute codeLines (Z.of_nat n) line err m)
    as Hused.
  destruct (consume_spec codeLines n line (usedLines m) Hline)
    as (Hsub & Hnew & Hself).
  rewrite <- Hused in Hsub, Hnew, Hself.
  destruct (Parse_line msg execute codeLines (Z.of_nat n) line err m)
    as [m1 [[err1|e]|]]; cbn [fst snd] in *;
    [|split_and!; [done|done|done]..].
  specialize (IH (S n) err1 m1 Hrest).
  replace (Z.of_nat n + 1) with (Z.of_nat (S n)) by lia.
  destruct IH as (IHsub & IHnew & IHall). split_and!.
  - by etrans.
  - intros i Hi. destruct (IHnew i Hi) as [Hin|[Hge Hc]]; [|right; split; [lia|done]].
    destruct (Hnew i Hin) as [?|[??]]; [by left|by right].
  - intros e He i l Hi Hl Hspecial.
    destruct (decide (i = n)) as [->|Hne]; [|by apply (IHall e He i l); [lia|..]].
    apply IHsub. apply Hself. by simplify_eq.
Qed.

(** X9. A cell with no directive or shell line is left alone: for
    either value of [execute], [Parse] returns a nil error and changes
    nothing, [usedLines] included. *)
Theorem Parse_plain_cell msg execute codeLines m :
  Forall (λ line, is_special line = false) codeLines →
  Parse msg execute codeLines m = (set_status no_inputs m, Ok (ReturnEnd None)).
Proof.
  intros Hplain. unfold Parse, mbind, Exec_bind, bind, put_status.
  cbn zeta iota beta. fold no_inputs.
  generalize (set_status no_inputs m) as m0, 0 as n, (@None error) as err.
  revert Hplain. generalize codeLines at 1 3 as rest.
  induction rest as [|line rest IH]; intros Hplain m0 n err; [done|].
  apply Forall_cons in Hplain as [Hline Hrest].
  cbn [Parse_loop]. unfold mbind, Exec_bind, bind, Parse_line.
  rewrite Hline. destruct (bool_decide _); by apply IH.
Qed.

(** X10. However a call of [Parse] ends, [usedLines] has only grown,
    and every index added is that of a directive or shell line of the
    cell, or of a line whose predecessor ends with a backslash: a line
    of Go that follows no such line is never taken. *)
Theorem Parse_consumes_only_directives msg execute codeLines m :
  let r := Parse msg execute codeLines m in
  usedLines m ⊆ usedLines r.1
  ∧ ∀ i, i ∈ usedLines r.1 → i ∉ usedLines m →
         consumable codeLines i ∧ 0 ≤ i < Z.of_nat (length codeLines).
Proof.
  unfold Parse, mbind, Exec_bind, bind, put_status. cbn zeta iota beta.
  destruct (Parse_loop_consumes msg execute codeLines codeLines 0 None
              (set_status {| withInputs := false; withPassword := false |} m)
              eq_refl) as (Hsub & Hnew & _).
  split; [exact Hsub|]. intros i Hi Hnot.
  destruct (Hnew i Hi) as [Hin|[_ Hc]]; [done|]. split; [done|].
  destruct Hc as (Hpos & line & Hline & _).
  apply lookup_lt_Some in Hline. lia.
Qed.

(** X11. When [Parse] returns from the end of its loop, every
    directive or shell line of the cell is in [usedLines]: none is left
    for the Go executor. *)
Theorem Parse_consumes_all_directives msg execute codeLines m m' err :
  Parse msg execute codeLines m = (m', Ok (ReturnEnd err)) →
  ∀ (i : nat) line, codeLines !! i = Some line → is_special line = true →
    Z.of_nat i ∈ usedLines m'.
Proof.
  unfold Parse, mbind, Exec_bind, bind, put_status. cbn zeta iota beta.
  intros Hrun i line Hline Hspecial.
  destruct (Parse_loop_consumes msg execute codeLines codeLines 0 None
              (set_status {| withInputs := false; withPassword := false |} m)
              eq_refl) as (_ & _ & Hall).
  change (Z.of_nat 0) with 0 in Hall. rewrite Hrun in Hall.
  by apply (Hall err eq_refl i line); [lia|..].
Qed.

(** X12. With [execute] false [Parse] never returns an error: it
    returns nil from the end of its loop, or panics. *)
Theorem Parse_dry_run_no_error msg codeLines m :
  (Parse msg false codeLines m).2 = Ok (ReturnEnd None)
  ∨ (Parse msg false codeLines m).2 = Panic.
Proof.
  unfold Parse, mbind, Exec_bind, bind, put_status. cbn zeta iota beta.
  by destruct (Parse_loop_dry msg codeLines codeLines 0 None
                 (set_status {| withInputs := false; withPassword := false |} m))
    as (_ & _ & _ & Hr).
Qed.

(** A directive whose command follows the sigil directly is scanned
    without a panic. *)
Lemma Parse_line_dry_command msg codeLines (n : nat) line err m :
  codeLines !! n = Some line →
  (is_special line = true → starts_command line = true) →
  (Parse_line msg false codeLines (Z.of_nat n) line err m).2 = Ok (Next err).
Proof.
  intros Hline Hcommand. unfold Parse_line.
  destruct (bool_decide _); [done|].
  destruct (is_special line) eqn:Hspecial; [|done].
  specialize (Hcommand eq_refl).
  destruct line as [|a [|b t]]; [done|done|].
  cbn in Hcommand. apply andb_prop in Hcommand as [Hspace Hback].
  apply negb_true_iff in Hspace, Hback. apply Ascii.eqb_neq in Hback.
  destruct (joinLine_from_line codeLines (Z.of_nat n) (String a (String b t))
              (usedLines m)) as (cmdStr & j & Hrun & _ & _ & _);
    [lia|by rewrite Nat2Z.id|done|].
  unfold mbind, Exec_bind, bind, call_joinLine. rewrite Hrun.
  assert (∃ t', cmdStr = String a (String b t')) as [t' ->].
  { unfold joinLine in Hrun. destruct (Z.of_nat n <? 0); [done|].
    rewrite Nat2Z.id, (drop_S _ _ _ Hline) in Hrun.
    by eapply joinLine_loop_prefix in Hrun. }
  cbn [skip_spaces]. rewrite Hspace. reflexivity.
Qed.

(** X13. When in every directive or shell line of the cell the
    command follows the sigil directly (the second byte is neither a
    space nor a backslash), [Parse] with [execute] false does not
    panic: it returns nil. *)
Theorem Parse_dry_run_returns msg codeLines m :
  Forall (λ line, is_special line = true → starts_command line = true)
    codeLines →
  (Parse msg false codeLines m).2 = Ok (ReturnEnd None).
Proof.
  intros Hcells. unfold Parse, mbind, Exec_bind, bind, put_status.
  cbn zeta iota beta.
  assert (∀ rest (n : nat) err m0, drop n codeLines = rest →
    (Parse_loop msg false codeLines rest (Z.of_nat n) err m0).2
    = Ok (ReturnEnd err)) as Hloop; [|by apply (Hloop codeLines 0%nat)].
  induction rest as [|line rest IH]; intros n err m0 Hdrop; [done|].
  assert (codeLines !! n = Some line) as Hline.
  { rewrite <- (Nat.add_0_r n), <- lookup_drop. by rewrite Hdrop. }
  assert (drop (S n) codeLines = rest) as Hrest.
  { rewrite (drop_S _ _ _ Hline) in Hdrop. by injection Hdrop. }
  cbn [Parse_loop]. unfold mbind, Exec_bind, bind.
  pose proof (Parse_line_dry_command msg codeLines n line err m0 Hline) as Hstep.
  destruct (Parse_line msg false codeLines (Z.of_nat n) line err m0) as [m1 r].
  cbn in Hstep. rewrite Hstep.
  - replace (Z.of_nat n + 1) with (Z.of_nat (S n)) by lia. by apply IH.
  - rewrite Forall_forall in Hcells. apply Hcells.
    by apply list_elem_of_lookup_2 in Hline.
Qed.

(** X17. A second pass does nothing: once [Parse] has returned from
    the end of its loop, a further call on the same cell with the set
    it has filled passes over every line, for either value of
    [execute]: no directive is executed twice, [usedLines] stays as it
    is, and the call cannot panic. *)
Theorem Parse_second_pass msg execute execute' codeLines m m' err :
  Parse msg execute codeLines m = (m', Ok (ReturnEnd err)) →
  Parse msg execute' codeLines m' = (set_status no_inputs m', Ok (ReturnEnd None)).
Proof.
  intros Hrun.
  assert (∀ (i : nat) line, codeLines !! i = Some line →
            is_special line = true → Z.of_nat i ∈ usedLines m') as Hall.
  { intros i line Hline Hspecial.
    unfold Parse, mbind, Exec_bind, bind, put_status in Hrun.
    cbn zeta iota beta in Hrun.
    destruct (Parse_loop_consumes msg execute codeLines codeLines 0 None
                (set_status {| withInputs := false; withPassword := false |} m)
                eq_refl) as (_ & _ & Hall).
    change (Z.of_nat 0) with 0 in Hall. rewrite Hrun in Hall.
    by apply (Hall err eq_refl i line); [lia|..]. }
  clear Hrun. unfold Parse, mbind, Exec_bind, bind, put_status.
  cbn zeta iota beta. fold no_inputs.
  assert (∀ rest (n : nat) e m0, usedLines m0 = usedLines m' →
    drop n codeLines = rest →
    Parse_loop msg execute' codeLines rest (Z.of_nat n) e m0
    = (m0, Ok (ReturnEnd e))) as Hloop; [|by apply (Hloop codeLines 0%nat)].
  induction rest as [|line rest IH]; intros n e m0 Hused Hdrop; [done|].
  assert (codeLines !! n = Some line) as Hline.
  { rewrite <- (Nat.add_0_r n), <- lookup_drop. by rewrite Hdrop. }
  assert (drop (S n) codeLines = rest) as Hrest.
  { rewrite (drop_S _ _ _ Hline) in Hdrop. by injection Hdrop. }
  cbn [Parse_loop]. unfold mbind, Exec_bind, bind, Parse_line.
  rewrite Hused. case_bool_decide as Hin.
  - replace (Z.of_nat n + 1) with (Z.of_nat (S n)) by lia. by apply IH.
  - destruct (is_special line) eqn:Hspecial;
      [by destruct Hin; apply (Hall n line)|].
    replace (Z.of_nat n + 1) with (Z.of_nat (S n)) by lia. by apply IH.
Qed.

End MoreProperties.

(** ** Further runs in the recording world *)

Lemma Parse_plain_cell_witness :
  Forall (λ line, is_special line = false) ["x := 1"; "%"; "fmt.Println(x)"]
  ∧ Parse None true ["x := 1"; "%"; "fmt.Println(x)"] (Sim.initial [])
    = (Sim.initial [], Ok (ReturnEnd None)).
Proof.
  assert (Forall (λ line, is_special line = false)
            ["x := 1"; "%"; "fmt.Println(x)"]) as Hplain
    by (repeat constructor).
  split; [exact Hplain|].
  exact (Parse_plain_cell None true _ (Sim.initial []) Hplain).
Defined.


(** ** More on the directives *)

Section DirectiveProperties.

Context {W : Type} `{!Externals W}.
Implicit Types (m : Machine W) (msg : Message).

(** X14. A shell command always leaves both input flags cleared, and
    touches neither [usedLines] nor [goExec]: [%with_inputs] and
    [%with_password] hold for the next shell command only.  It does not
    panic on a command that is not empty, and returns what the
    execution returned. *)
Theorem execShell_clears_status msg cmdStr m :
  cmdStr ≠ "" →
  let r := execShell msg cmdStr m in
  status r.1 = no_inputs
  ∧ usedLines r.1 = usedLines m ∧ goExec r.1 = goExec m
  ∧ ∃ err, r.2 = Ok err.
Proof.
  intros Hne. destruct cmdStr as [|c cmdStr]; [done|].
  unfold execShell, mbind, Exec_bind, bind, get_goExec, get_status,
    put_status, call.
  cbn zeta iota beta.
  destruct (Ascii.eqb c star); cbn iota beta;
    destruct (status m) as [[] []] eqn:Hs; cbn [withInputs withPassword];
    cbn [world set_status];
    destruct (PipeExecToJupyter _ _ _ _ _ _) as [w e];
    cbn; rewrite ?Hs; by eauto.
Qed.

(** X15. On a status with no flag set, as at the first directive of a
    cell, [%with_inputs] and [%with_password] are accepted whatever the
    notebook says in [allow_stdin]: the flag is set and nil is
    returned.  The refusal only applies once a flag is set. *)
Theorem execInternal_with_inputs_fresh msg cmdStr name args content allowed m :
  message_content msg = Ok content →
  allow_stdin content = Ok allowed →
  splitCmd cmdStr = name :: args →
  status m = no_inputs →
  (name = "with_inputs" →
   execInternal msg cmdStr m
   = (set_status {| withInputs := true; withPassword := false |} m, Ok None))
  ∧ (name = "with_password" →
     execInternal msg cmdStr m
     = (set_status {| withInputs := false; withPassword := true |} m, Ok None)).
Proof.
  intros Hcontent Hallowed Hparts Hstatus.
  split; intros ->; unfold execInternal; rewrite Hcontent, Hparts;
    unfold mbind at 1; unfold Exec_bind, bind at 1;
    cbn [of_result mret Exec_ret ret];
    repeat match goal with
      | |- context [is_one_of ?n ?l] =>
          let b := eval vm_compute in (is_one_of n l) in
          change (is_one_of n l) with b; cbn iota
      end;
    rewrite Hallowed;
    unfold mbind, Exec_bind, bind, of_result, ret, get_status, put_status;
    rewrite Hstatus; cbn; by rewrite andb_false_r.
Qed.

(** X16. The directives [%%], [%main], [%args], [%autoget],
    [%noautoget], [%help], [%ls], [%list], [%rm], [%remove], [%track]
    and [%untrack] never fail a cell: whatever their arguments and
    whatever the calls they make return, [execInternal] returns a nil
    error, does not panic, and leaves [usedLines] and [status] as they
    were. *)
Theorem execInternal_infallible msg cmdStr name args content m :
  message_content msg = Ok content →
  splitCmd cmdStr = name :: args →
  name ∈ infallible_directives →
  let r := execInternal msg cmdStr m in
  r.2 = Ok None ∧ usedLines r.1 = usedLines m ∧ status r.1 = status m.
Proof.
  intros Hcontent Hparts Hname.
  unfold execInternal. rewrite Hcontent, Hparts.
  unfold mbind at 1. unfold Exec_bind, bind at 1.
  cbn [of_result mret Exec_ret ret].
  unfold infallible_directives in Hname.
  repeat (apply elem_of_cons in Hname as [->|Hname]);
    [..|by apply elem_of_nil in Hname];
    repeat match goal with
      | |- context [is_one_of ?n ?l] =>
          let b := eval vm_compute in (is_one_of n l) in
          change (is_one_of n l) with b; cbn iota
      end;
    unfold mbind, Exec_bind, bind, get_goExec, put_goExec, log, call, proc,
      log_if_failed, mret, Exec_ret, ret;
    cbn zeta iota beta;
    repeat match goal with
      | |- context [PublishDisplayDataWithMarkdown ?a ?b ?c] =>
          destruct (PublishDisplayDataWithMarkdown a b c) as [? [?|]]
      | |- context [listDefinitions ?a ?b ?c] =>
          destruct (listDefinitions a b c)
      | |- context [removeDefinitions ?a ?b ?c ?d] =>
          destruct (removeDefinitions a b c d)
      | |- context [execTrack ?a ?b ?c ?d] => destruct (execTrack a b c d)
      | |- context [execUntrack ?a ?b ?c ?d] => destruct (execUntrack a b c d)
      end; by cbn.
Qed.

(** X18. A bad argument count of [%env] (other than two) or of
    [%cd] (more than one) is found before anything is done: no call is
    made, the machine is unchanged, and the error returned carries the
    number of arguments given. *)
Theorem execInternal_argument_count msg cmdStr name args content m :
  message_content msg = Ok content →
  splitCmd cmdStr = name :: args →
  (name = "env" → length args ≠ 2%nat →
   execInternal msg cmdStr m
   = (m, Ok (Some (Errorf
       "`%%env <VAR_NAME> <value>`: it takes 2 arguments, the variable name and it's content, but %d were given"
       [ArgInt (Z.of_nat (length args))]))))
  ∧ (name = "cd" → (1 < length args)%nat →
     execInternal msg cmdStr m
     = (m, Ok (Some (Errorf
         "`%%cd [<directory>]`: it takes none or one argument, but %d were given"
         [ArgInt (Z.of_nat (length args))])))).
Proof.
  intros Hcontent Hparts.
  split; intros -> Hcount; unfold execInternal; rewrite Hcontent, Hparts;
    unfold mbind at 1; unfold Exec_bind, bind at 1;
    cbn [of_result mret Exec_ret ret];
    repeat match goal with
      | |- context [is_one_of ?n ?l] =>
          let b := eval vm_compute in (is_one_of n l) in
          change (is_one_of n l) with b; cbn iota
      end;
    replace (Z.of_nat (length ("env" :: args)) - 1)
      with (Z.of_nat (length args)) by (cbn [length]; lia);
    replace (Z.of_nat (length ("cd" :: args)) - 1)
      with (Z.of_nat (length args)) by (cbn [length]; lia).
  - by destruct args as [|a [|b [|c args]]].
  - destruct args as [|a [|b args]]; [cbn in Hcount; lia..|done].
Qed.

End DirectiveProperties.

(** [Parse_consumes_only_directives] on the cell of a directive, a
    line of Go and a continued shell command: line 3 is taken as the
    continuation of line 2. *)
Lemma Parse_consumes_only_directives_witness :
  3 ∈ usedLines (Parse None true Fixtures.mixed_cell (Sim.initial [])).1
  ∧ consumable Fixtures.mixed_cell 3
  ∧ 0 ≤ 3 < Z.of_nat (length Fixtures.mixed_cell).
Proof.
  assert (3 ∈ usedLines (Parse None true Fixtures.mixed_cell (Sim.initial [])).1)
    as Hin by compute_done.
  split; [exact Hin|].
  apply (proj2 (Parse_consumes_only_directives None true Fixtures.mixed_cell
                  (Sim.initial [])) 3 Hin).
  apply not_elem_of_empty.
Defined.

(** [Parse_consumes_all_directives] on the same cell. *)
Lemma Parse_consumes_all_directives_witness :
  (Parse None true Fixtures.mixed_cell (Sim.initial [])).2 = Ok (ReturnEnd None)
  ∧ Z.of_nat 2 ∈ usedLines (Parse None true Fixtures.mixed_cell (Sim.initial [])).1.
Proof.
  split; [vm_compute; reflexivity|].
  apply (Parse_consumes_all_directives None true Fixtures.mixed_cell
           (Sim.initial []) _ None) with (line := "!ls " +:+ str backslash).
  - vm_compute. reflexivity.
  - reflexivity.
  - reflexivity.
Defined.

(** [Parse_dry_run_returns] on the same cell. *)
Lemma Parse_dry_run_returns_witness :
  Forall (λ line, is_special line = true → starts_command line = true)
    Fixtures.mixed_cell
  ∧ (Parse None false Fixtures.mixed_cell (Sim.initial [])).2
    = Ok (ReturnEnd None).
Proof.
  assert (Forall (λ line, is_special line = true → starts_command line = true)
            Fixtures.mixed_cell) as Hcells.
  { repeat constructor; by vm_compute. }
  split; [exact Hcells|].
  exact (Parse_dry_run_returns None Fixtures.mixed_cell (Sim.initial []) Hcells).
Defined.

(** [execShell_clears_status] after a [%with_password]. *)
Lemma execShell_clears_status_witness :
  status (execShell None "*pwd"
            {| usedLines := ∅; goExec := goExec (Sim.initial []);
               status := {| withInputs := false; withPassword := true |};
               world := world (Sim.initial []) |}).1
  = no_inputs.
Proof.
  apply (execShell_clears_status None "*pwd"). discriminate.
Defined.

(** A message whose content says that the notebook allows no input. *)
Lemma execInternal_with_inputs_fresh_witness :
  execInternal
    (Some {| Content := Some (ContentMap {["allow_stdin" := JBool false]}) |})
    "with_inputs" (Sim.initial [])
  = (set_status {| withInputs := true; withPassword := false |} (Sim.initial []),
     Ok None).
Proof.
  apply (execInternal_with_inputs_fresh
           (Some {| Content := Some (ContentMap {["allow_stdin" := JBool false]}) |})
           "with_inputs" "with_inputs" []
           (Some {["allow_stdin" := JBool false]}) false (Sim.initial []));
    reflexivity.
Defined.

(** [execInternal_infallible] on [%rm] with two arguments. *)
Lemma execInternal_infallible_witness :
  "rm" ∈ infallible_directives
  ∧ (execInternal None "rm a b" (Sim.initial [])).2 = Ok None.
Proof.
  assert ("rm" ∈ infallible_directives) as Hname by compute_done.
  split; [exact Hname|].
  apply (execInternal_infallible None "rm a b" "rm" ["a"; "b"] None
           (Sim.initial []) eq_refl eq_refl Hname).
Defined.

(** [Parse_second_pass]: a pass with [execute] false, then one with
    [execute] true on the set it has filled. *)
Lemma Parse_second_pass_witness :
  (Parse None false Fixtures.mixed_cell (Sim.initial [])).2 = Ok (ReturnEnd None)
  ∧ (Parse None true Fixtures.mixed_cell
       (Parse None false Fixtures.mixed_cell (Sim.initial [])).1).2
    = Ok (ReturnEnd None)
  ∧ Sim.trace (world (Parse None true Fixtures.mixed_cell
       (Parse None false Fixtures.mixed_cell (Sim.initial [])).1).1) = [].
Proof.
  assert (Parse None false Fixtures.mixed_cell (Sim.initial [])
          = ((Parse None false Fixtures.mixed_cell (Sim.initial [])).1,
             Ok (ReturnEnd None))) as Hrun by (vm_compute; reflexivity).
  split; [vm_compute; reflexivity|].
  rewrite (Parse_second_pass None false true _ _ _ _ Hrun).
  split; vm_compute; reflexivity.
Defined.

(** [execInternal_argument_count] on [%cd] with two arguments. *)
Lemma execInternal_argument_count_witness :
  execInternal None "cd /tmp /var" (Sim.initial [])
  = (Sim.initial [],
     Ok (Some (Errorf
       "`%%cd [<directory>]`: it takes none or one argument, but %d were given"
       [ArgInt 2]))).
Proof.
  apply (proj2 (execInternal_argument_count None "cd /tmp /var" "cd"
                  ["/tmp"; "/var"] None (Sim.initial []) eq_refl eq_refl) eq_refl).
  cbn. lia.
Defined.
